(** * DeckLinkFrameHelper: extraction of pixel bytes from a DeckLink frame

    A shallow embedding of
    [src/Screener.Capture.Blackmagic.Native/DeckLinkFrameHelper.cpp]:
    the corruption heuristic [LooksLikeCorruptBGRA] and the two exported
    entry points [CopyDeckLinkFrameBytes] and [GetDeckLinkFrameInfo].

    - C [int]/[long] values are integers of [Z] with the 32-bit wrap-around
      written out ([wrap32]); [size_t] conversion is [to_size_t].
    - C [double] is the kernel's binary64 [float].
    - The foreign COM object, its indexed accessors and the process memory
      behind the pointers it hands out are a record [Foreign]; an accessor
      that raises a hardware fault is [None].
    - Effects are a state monad with one exception, the structured
      exception of [__try]/[__except]; writes that happened before a fault
      stay in the state.  The state is the destination buffer (indexed by
      byte offset from [buffer]) and a trace of the foreign calls and of the
      stores to the buffer, most recent first.
    - [DebugLog] and the reads that only feed its arguments are a side
      channel and are left out, together with the [static] flags and
      counters that only throttle it. *)

From Stdlib Require Import ZArith List Bool Lia PrimFloat Uint63.
Import ListNotations.
Local Open Scope Z_scope.

Set Warnings "-inexact-float".

(** ** Machine integers *)

Definition wrap32 (z : Z) : Z := (z + 2147483648) mod 4294967296 - 2147483648.

Definition to_size_t (z : Z) : Z := z mod 18446744073709551616.

Definition int32 (z : Z) : Prop := -2147483648 <= z <= 2147483647.

(** [HRESULT] is a signed 32-bit status; the SDK macros test its sign. *)
Definition HRESULT := Z.
Definition SUCCEEDED (hr : HRESULT) : bool := 0 <=? hr.
Definition FAILED (hr : HRESULT) : bool := hr <? 0.

Definition S_OK : HRESULT := 0.
Definition E_NOINTERFACE : HRESULT := -2147467262.
Definition E_FAIL : HRESULT := -2147467259.

Definition nullptr : Z := 0.

(** ** Outcomes and the monad *)

Inductive Outcome (A : Type) : Type :=
| Val (a : A)     (* normal completion *)
| Exc             (* a structured exception is propagating *)
| OutOfFuel.      (* the loop budget of the model ran out *)

Arguments Val {A} a.
Arguments Exc {A}.
Arguments OutOfFuel {A}.

Definition M (S A : Type) : Type := S -> Outcome A * S.

Definition ret {S A} (a : A) : M S A := fun s => (Val a, s).

Definition bind {S A B} (c : M S A) (k : A -> M S B) : M S B :=
  fun s =>
    match c s with
    | (Val a, s') => k a s'
    | (Exc, s') => (Exc, s')
    | (OutOfFuel, s') => (OutOfFuel, s')
    end.

Definition raise {S A} : M S A := fun s => (Exc, s).

(** [__try { body } __except(EXCEPTION_EXECUTE_HANDLER) { handler }] *)
Definition try_except {S A} (body handler : M S A) : M S A :=
  fun s =>
    match body s with
    | (Exc, s') => handler s'
    | r => r
    end.

Definition when {S} (b : bool) (c : M S unit) : M S unit :=
  if b then c else ret tt.

(** A foreign call: [None] is a hardware fault inside the callee. *)
Definition foreign {S A} (r : option A) : M S A :=
  match r with
  | Some a => ret a
  | None => raise
  end.

Declare Scope monad_scope.
Delimit Scope monad_scope with monad.
Notation "x <- c ;; k" := (bind c (fun x => k))
  (at level 61, c at next level, right associativity) : monad_scope.
Notation "' p <- c ;; k" := (bind c (fun x => match x with p => k end))
  (at level 61, p pattern, c at next level, right associativity) : monad_scope.
Notation "c ;; k" := (bind c (fun _ => k))
  (at level 61, right associativity) : monad_scope.
Local Open Scope monad_scope.

(** [for (i = i0; cond i; i = next i) acc = body i acc], with a budget. *)
Fixpoint for_acc {S A} (fuel : nat) (cond : Z -> bool) (next : Z -> Z)
    (body : Z -> A -> M S A) (i : Z) (acc : A) : M S A :=
  match fuel with
  | O => fun s => (OutOfFuel, s)
  | Datatypes.S fuel' =>
      if cond i
      then a <- body i acc ;; for_acc fuel' cond next body (next i) a
      else ret acc
  end.

(** ** The corruption heuristic *)

Module Detector.

Definition samples : Z := 2048.

(** [(double)n] for the small non-negative integers the detector converts. *)
Definition to_double (n : Z) : float := PrimFloat.of_uint63 (Uint63.of_Z n).

(** Welford's update; returns the new [*mean] and [*m2]. *)
Definition UpdateStats (v : Z) (mean m2 : float) (i : Z) : float * float :=
  let x := to_double v in
  let delta := PrimFloat.sub x mean in
  let mean := PrimFloat.add mean (PrimFloat.div delta (to_double (i + 1))) in
  let delta2 := PrimFloat.sub x mean in
  (mean, PrimFloat.add m2 (PrimFloat.mul delta delta2)).

(** The locals of [LooksLikeCorruptBGRA] that live across the sample loop. *)
Record Acc : Type := mkAcc {
  c0FF : Z; c1FF : Z; c2FF : Z; c3FF : Z;
  m0 : float; m1 : float; m2 : float; m3 : float;
  s0 : float; s1 : float; s2 : float; s3 : float
}.

Definition acc0 : Acc :=
  mkAcc 0 0 0 0 0%float 0%float 0%float 0%float 0%float 0%float 0%float 0%float.

(** The byte offset sample [i] reads at.  [%] is C's truncating remainder;
    a zero divisor raises the integer-divide fault, here [None]. *)
Definition sample_offset (width height rowBytes i : Z) : option Z :=
  let widthBytes := wrap32 (width * 2) in
  if height =? 0 then None else
  let y := Z.rem (i * 131) height in
  let d := wrap32 (widthBytes - 4) in
  if d =? 0 then None else
  let x := Z.rem (i * 337) d in
  let x := Z.land x (Z.lnot 3) in
  Some (wrap32 (wrap32 (y * rowBytes) + x)).

Definition bump (b c : Z) : Z := if b =? 255 then c + 1 else c.

Definition sample_step (p : Z -> Z) (offset i : Z) (a : Acc) : Acc :=
  let b0 := p (offset + 0) in
  let b1 := p (offset + 1) in
  let b2 := p (offset + 2) in
  let b3 := p (offset + 3) in
  let '(m0', s0') := UpdateStats b0 (m0 a) (s0 a) i in
  let '(m1', s1') := UpdateStats b1 (m1 a) (s1 a) i in
  let '(m2', s2') := UpdateStats b2 (m2 a) (s2 a) i in
  let '(m3', s3') := UpdateStats b3 (m3 a) (s3 a) i in
  mkAcc (bump b0 (c0FF a)) (bump b1 (c1FF a)) (bump b2 (c2FF a)) (bump b3 (c3FF a))
        m0' m1' m2' m3' s0' s1' s2' s3'.

(** [for (int i = 0; i < samples; i++)], [n] iterations left. *)
Fixpoint sample_loop (n : nat) (p : Z -> Z) (width height rowBytes i : Z)
    (a : Acc) : option Acc :=
  match n with
  | O => Some a
  | S n' =>
      match sample_offset width height rowBytes i with
      | None => None
      | Some offset =>
          sample_loop n' p width height rowBytes (i + 1) (sample_step p offset i a)
      end
  end.

Definition verdict (a : Acc) : bool :=
  let n := to_double samples in
  let p0 := PrimFloat.div (to_double (c0FF a)) n in
  let p1 := PrimFloat.div (to_double (c1FF a)) n in
  let p2 := PrimFloat.div (to_double (c2FF a)) n in
  let p3 := PrimFloat.div (to_double (c3FF a)) n in
  let maxOther := if PrimFloat.ltb p1 p0 then p0 else p1 in
  let maxOther := if PrimFloat.ltb maxOther p2 then p2 else maxOther in
  let alphaBias := PrimFloat.sub p3 maxOther in
  let n1 := to_double (samples - 1) in
  let var0 := PrimFloat.div (s0 a) n1 in
  let var1 := PrimFloat.div (s1 a) n1 in
  let var2 := PrimFloat.div (s2 a) n1 in
  let var3 := PrimFloat.div (s3 a) n1 in
  let varY := PrimFloat.add var1 var3 in
  let varUV := PrimFloat.add var0 var2 in
  let suspiciousAlpha :=
    (PrimFloat.ltb 0.20%float p3 && PrimFloat.ltb 0.10%float alphaBias)
    || PrimFloat.ltb 0.35%float p3 in
  let suspiciousVariance :=
    (PrimFloat.ltb var3 50.0%float && PrimFloat.ltb 0.10%float p3)
    || PrimFloat.ltb varY (PrimFloat.mul varUV 0.8%float) in
  suspiciousAlpha || suspiciousVariance.

(** [None]: the call raised the integer-divide fault ([height == 0] or
    [width*2 - 4 == 0]). *)
Definition LooksLikeCorruptBGRA (p : Z -> Z) (width height rowBytes : Z)
    : option bool :=
  match sample_loop (Z.to_nat samples) p width height rowBytes 0 acc0 with
  | Some a => Some (verdict a)
  | None => None
  end.

End Detector.

(** ** The foreign object and the state of a call *)

Inductive IID : Type :=
| IID_IUnknown
| IID_IDeckLinkVideoFrame
| IID_IDeckLinkVideoInputFrame
| IID_IDeckLinkVideoBuffer
| IID_IDeckLinkVideoInputFrame_v14_2_1.

Definition bmdBufferAccessRead : Z := 1.

(** What the frame object answers during one call.  [QueryInterface] gives
    the status and the interface pointer it stored; an indexed accessor is
    [None] when calling it raises an access violation; [field280] is the
    pointer-sized word at byte offset 280 of the object; [memory] is the
    readable part of the address space ([None]: reading there faults). *)
Record Foreign : Type := mkForeign {
  QI : IID -> HRESULT * Z;
  vt_GetWidth : option Z;                 (* vtable[3] *)
  vt_GetHeight : option Z;                (* vtable[4] *)
  vt_GetRowBytes : option Z;              (* vtable[5] *)
  vt_GetPixelFormat : option Z;           (* vtable[6] *)
  vt_GetFlags : option Z;                 (* vtable[7] *)
  vb_GetBytes : option (HRESULT * Z);     (* IDeckLinkVideoBuffer vtable[3] *)
  vb_StartAccess : Z -> option HRESULT;   (* IDeckLinkVideoBuffer vtable[4] *)
  vb_EndAccess : Z -> option HRESULT;     (* IDeckLinkVideoBuffer vtable[5] *)
  legacy_GetBytes : option (HRESULT * Z); (* v14_2_1 vtable[8] *)
  field280 : Z;
  memory : Z -> option Z
}.

Inductive Event : Type :=
| EvQueryInterface (iid : IID)
| EvRelease (p : Z)
| EvAddRef (p : Z)
| EvStartAccess (mode : Z)
| EvGetBytes
| EvEndAccess (mode : Z)
| EvLegacyGetBytes
| EvReadField280
| EvWrite (off len : Z)                   (* [len] bytes stored at [buffer + off] *)
| EvDetector (verdict : option bool).     (* LooksLikeCorruptBGRA was called *)

(** [dst o] is the byte at [buffer + o]; offsets outside
    [0 .. bufferSize-1] are the memory around the caller's buffer. *)
Record State : Type := mkState {
  dst : Z -> Z;
  trace : list Event
}.

Definition emit (e : Event) : M State unit :=
  fun s => (Val tt, mkState (dst s) (e :: trace s)).

Definition QueryInterface (fr : Foreign) (iid : IID) : M State (HRESULT * Z) :=
  emit (EvQueryInterface iid) ;; ret (QI fr iid).

Definition Release (p : Z) : M State unit := emit (EvRelease p).
Definition AddRef (p : Z) : M State unit := emit (EvAddRef p).

(** *** memcpy from foreign memory into the destination buffer *)

(** How many of the [n] bytes from address [a] on can be read. *)
Fixpoint readable_prefix (m : Z -> option Z) (a : Z) (n : nat) : Z :=
  match n with
  | O => 0
  | S n' =>
      match m a with
      | Some _ => 1 + readable_prefix m (a + 1) n'
      | None => 0
      end
  end.

Definition load (m : Z -> option Z) (a : Z) : Z :=
  match m a with
  | Some b => b
  | None => 0
  end.

Definition blit (d : Z -> Z) (doff : Z) (m : Z -> option Z) (src k : Z)
    : Z -> Z :=
  fun o =>
    if (doff <=? o) && (o <? doff + k) then load m (src + (o - doff)) else d o.

(** [memcpy(buffer + doff, src, n)]: a forward byte copy; it faults at the
    first unreadable source byte, the bytes before it having been stored. *)
Definition memcpy (fr : Foreign) (doff src n : Z) : M State unit :=
  fun s =>
    let len := to_size_t n in
    let k := readable_prefix (memory fr) src (Z.to_nat len) in
    let s' := mkState (blit (dst s) doff (memory fr) src k)
                      (EvWrite doff k :: trace s) in
    if k =? len then (Val tt, s') else (Exc, s').

(** [((unsigned char* )buffer)[off] = v] *)
Definition store (off v : Z) : M State unit :=
  fun s =>
    (Val tt, mkState (fun o => if o =? off then v else dst s o)
                     (EvWrite off 1 :: trace s)).

Definition detect (width height rowBytes : Z) : M State bool :=
  fun s =>
    let v := Detector.LooksLikeCorruptBGRA (dst s) width height rowBytes in
    let s' := mkState (dst s) (EvDetector v :: trace s) in
    match v with
    | Some b => (Val b, s')
    | None => (Exc, s')
    end.

(** ** CopyDeckLinkFrameBytes *)

Definition chunkSize : Z := 65536.

(** [(bufferSize < rowBytes * height) ? bufferSize : (rowBytes * height)] *)
Definition copySize (bufferSize rowBytes height : Z) : Z :=
  if bufferSize <? wrap32 (rowBytes * height)
  then bufferSize
  else wrap32 (rowBytes * height).

(** Lines 247-289: the body run on the IDeckLinkVideoBuffer interface; the
    value is the local [result].  [result] is assigned before [endAccess]
    is called, so a fault inside [endAccess] reaches the handler with
    [result] already set: that is the inner handler here. *)
Definition VideoBufferPath (fr : Foreign) (bufferSize height rowBytes : Z)
    : M State Z :=
  try_except
    (hr <- (emit (EvStartAccess bmdBufferAccessRead) ;;
            foreign (vb_StartAccess fr bmdBufferAccessRead)) ;;
     if SUCCEEDED hr then
       '(hr, srcPtr) <- (emit EvGetBytes ;; foreign (vb_GetBytes fr)) ;;
       result <- (if SUCCEEDED hr && negb (srcPtr =? nullptr)
                  then memcpy fr 0 srcPtr (copySize bufferSize rowBytes height) ;;
                       ret 1
                  else ret 0) ;;
       try_except
         (emit (EvEndAccess bmdBufferAccessRead) ;;
          _ <- foreign (vb_EndAccess fr bmdBufferAccessRead) ;; ret tt)
         (ret tt) ;;
       ret result
     else ret 0)
    (ret 0).

(** Lines 317-349: the body run on the v14_2_1 interface. *)
Definition LegacyPath (fr : Foreign) (bufferSize height rowBytes : Z)
    : M State Z :=
  try_except
    ('(hrGB, srcPtr) <- (emit EvLegacyGetBytes ;; foreign (legacy_GetBytes fr)) ;;
     if SUCCEEDED hrGB && negb (srcPtr =? nullptr)
     then memcpy fr 0 srcPtr (copySize bufferSize rowBytes height) ;; ret 1
     else ret 0)
    (ret 0).

(** Lines 413-420: the black fill of a chunk that faulted. *)
Definition FillBlack (pos thisChunk : Z) : M State unit :=
  for_acc (S (Z.to_nat thisChunk))
    (fun i => i <? thisChunk)
    (fun i => wrap32 (i + 4))
    (fun i _ =>
       store (pos + i) 128 ;;
       store (pos + (i + 1)) 16 ;;
       store (pos + (i + 2)) 128 ;;
       store (pos + (i + 3)) 16)
    0 tt.

Definition thisChunk_of (bufferSize pos : Z) : Z :=
  if wrap32 (pos + chunkSize) <=? bufferSize
  then chunkSize
  else wrap32 (bufferSize - pos).

(** Lines 403-421: one iteration of the chunked copy, from the current
    [bytesCopied] to the next. *)
Definition CopyChunk (fr : Foreign) (src bufferSize pos bytesCopied : Z)
    : M State Z :=
  let thisChunk := thisChunk_of bufferSize pos in
  try_except
    (memcpy fr pos (src + pos) thisChunk ;;
     ret (wrap32 (bytesCopied + thisChunk)))
    (FillBlack pos thisChunk ;; ret bytesCopied).

(** Lines 401-422: [for (int pos = 0; pos < bufferSize; pos += chunkSize)]. *)
Definition ChunkedCopy (fr : Foreign) (fuel : nat) (src bufferSize : Z)
    : M State Z :=
  for_acc fuel
    (fun pos => pos <? bufferSize)
    (fun pos => wrap32 (pos + chunkSize))
    (CopyChunk fr src bufferSize)
    0 0.

(** Lines 393-423: the value is the local [bytesCopied]. *)
Definition RawCopy (fr : Foreign) (fuel : nat) (src bufferSize : Z)
    : M State Z :=
  try_except
    (memcpy fr 0 src bufferSize ;; ret bufferSize)
    (ChunkedCopy fr fuel src bufferSize).

(** Lines 428-433 and 561-568. *)
Definition Verdict (unknown bufferSize width height rowBytes bytesCopied : Z)
    : M State Z :=
  isCorrupt <- (if bytesCopied >? Z.quot bufferSize 2
                then detect width height rowBytes
                else ret false) ;;
  Release unknown ;;
  if bytesCopied <=? Z.quot bufferSize 2 then ret 0
  else if isCorrupt then ret (-1)
  else ret 1.

(** Lines 359-568. *)
Definition RawOffsetFallback (fr : Foreign) (fuel : nat)
    (unknown bufferSize width height rowBytes : Z) : M State Z :=
  AddRef unknown ;;
  ptr <- (emit EvReadField280 ;; ret (field280 fr)) ;;
  if ptr =? nullptr then Release unknown ;; ret 0 else
  let ptrVal := ptr in
  if (ptrVal <? 65536) || (ptrVal >=? 140733193388032)
  then Release unknown ;; ret 0 else
  bytesCopied <- RawCopy fr fuel ptr bufferSize ;;
  Verdict unknown bufferSize width height rowBytes bytesCopied.

(** Lines 198-211: [None] stands for the [return 0] of the handler. *)
Definition ReadGeometry (fr : Foreign) : M State (option (Z * Z * Z * Z)) :=
  try_except
    (width <- foreign (vt_GetWidth fr) ;;
     height <- foreign (vt_GetHeight fr) ;;
     rowBytes <- foreign (vt_GetRowBytes fr) ;;
     pixelFormat <- foreign (vt_GetPixelFormat fr) ;;
     ret (Some (width, height, rowBytes, pixelFormat)))
    (ret None).

Definition CopyDeckLinkFrameBytes (fr : Foreign) (fuel : nat)
    (framePtr buffer bufferSize : Z) : M State Z :=
  if (framePtr =? nullptr) || (buffer =? nullptr) || (bufferSize <=? 0)
  then ret 0 else
  let unknown := framePtr in
  '(hrTest, testUnk) <- QueryInterface fr IID_IUnknown ;;
  if FAILED hrTest || (testUnk =? nullptr) then ret 0 else
  Release testUnk ;;
  '(hrVF, testVF) <- QueryInterface fr IID_IDeckLinkVideoFrame ;;
  when (negb (testVF =? nullptr)) (Release testVF) ;;
  '(hrVIF, testVIF) <- QueryInterface fr IID_IDeckLinkVideoInputFrame ;;
  when (negb (testVIF =? nullptr)) (Release testVIF) ;;
  geometry <- ReadGeometry fr ;;
  match geometry with
  | None => ret 0
  | Some (width, height, rowBytes, pixelFormat) =>
      '(hr, videoBuffer) <- QueryInterface fr IID_IDeckLinkVideoBuffer ;;
      result <- (if SUCCEEDED hr && negb (videoBuffer =? nullptr)
                 then r <- VideoBufferPath fr bufferSize height rowBytes ;;
                      Release videoBuffer ;; ret r
                 else ret 0) ;;
      if result =? 1 then ret result else
      '(hrLegacy, legacyFrame) <-
         QueryInterface fr IID_IDeckLinkVideoInputFrame_v14_2_1 ;;
      result <- (if SUCCEEDED hrLegacy && negb (legacyFrame =? nullptr)
                 then r <- LegacyPath fr bufferSize height rowBytes ;;
                      Release legacyFrame ;; ret r
                 else ret 0) ;;
      if result =? 1 then ret result else
      RawOffsetFallback fr fuel unknown bufferSize width height rowBytes
  end.

(** ** GetDeckLinkFrameInfo *)

(** The state is the caller's memory holding the [int] cells the four
    output pointers designate, indexed by address; [nullptr] is "not
    asked for". *)
Definition poke (addr v : Z) : M (Z -> Z) unit :=
  fun mem => (Val tt, fun a => if a =? addr then v else mem a).

Definition GetDeckLinkFrameInfo (fr : Foreign)
    (framePtr width height rowBytes flags : Z) : M (Z -> Z) Z :=
  if framePtr =? nullptr then ret 0 else
  try_except
    (when (negb (width =? nullptr))
       (v <- foreign (vt_GetWidth fr) ;; poke width v) ;;
     when (negb (height =? nullptr))
       (v <- foreign (vt_GetHeight fr) ;; poke height v) ;;
     when (negb (rowBytes =? nullptr))
       (v <- foreign (vt_GetRowBytes fr) ;; poke rowBytes v) ;;
     when (negb (flags =? nullptr))
       (v <- foreign (vt_GetFlags fr) ;; poke flags v) ;;
     ret 1)
    (ret 0).

(** * Vocabulary of the statements *)

(** The least multiple of 4 that is at least [n]: where the black fill of
    [n] bytes stops. *)
Definition up4 (n : Z) : Z := 4 * ((n + 3) / 4).

(** [extends P s s']: the trace of [s'] is the trace of [s] with newer
    events in front, all of them satisfying [P]. *)
Definition extends_tr (P : Event -> Prop) (tr tr' : list Event) : Prop :=
  exists post, tr' = post ++ tr /\ Forall P post.

Definition extends (P : Event -> Prop) (s s' : State) : Prop :=
  extends_tr P (trace s) (trace s').

(** Byte [j] of the pattern [0x80 0x10 0x80 0x10] repeated. *)
Definition UYVY_black (j : Z) : Z :=
  nth (Z.to_nat (j mod 4)) [128; 16; 128; 16] 0.

(** The stores of the fill of a chunk of [n] bytes at [pos]. *)
Definition fill_write (pos n : Z) (e : Event) : Prop :=
  exists off, e = EvWrite off 1 /\ pos <= off < pos + up4 n.

Definition is_write (e : Event) : Prop := exists off len, e = EvWrite off len.

(** A store of [len] bytes at [off] that stays inside the first [n] bytes. *)
Definition write_within (n : Z) (e : Event) : Prop :=
  forall off len, e = EvWrite off len -> 0 < len -> 0 <= off /\ off + len <= n.

(** Length of the chunk that starts at [pos]. *)
Definition chunk_len (bufferSize pos : Z) : Z :=
  Z.min chunkSize (bufferSize - pos).

(** The source bytes of the chunk that starts at [pos] can all be read. *)
Definition chunk_ok (fr : Foreign) (src bufferSize pos : Z) : bool :=
  readable_prefix (memory fr) (src + pos) (Z.to_nat (chunk_len bufferSize pos))
  =? chunk_len bufferSize pos.

(** Offset [o] lies in chunk [k] of a buffer of [bufferSize] bytes. *)
Definition in_chunk (bufferSize k o : Z) : bool :=
  (chunkSize * k <=? o)
  && (o <? chunkSize * k + chunk_len bufferSize (chunkSize * k)).

(** The pointer at offset 280 passes the range check of lines 372-383. *)
Definition plausible (ptr : Z) : bool :=
  negb (ptr =? nullptr) && negb ((ptr <? 65536) || (ptr >=? 140733193388032)).

(** The state in which the fallback starts its copy. *)
Definition entered (unknown : Z) (s : State) : State :=
  mkState (dst s) (EvReadField280 :: EvAddRef unknown :: trace s).

(** Events of the part of [CopyDeckLinkFrameBytes] before the fallback:
    capability queries, releases of the queried interfaces, the calls of
    the two accessor paths, and copies of at most [bound] bytes to the
    start of the buffer. *)
Definition prefix_event (bound : Z) (e : Event) : Prop :=
  match e with
  | EvWrite off len => off = 0 /\ 0 <= len <= bound
  | EvAddRef _ | EvReadField280 | EvDetector _ => False
  | _ => True
  end.

(** The geometry the accessors report, when none of them faults. *)
Definition geometry (fr : Foreign) : option (Z * Z * Z * Z) :=
  match vt_GetWidth fr, vt_GetHeight fr, vt_GetRowBytes fr, vt_GetPixelFormat fr with
  | Some w, Some h, Some rb, Some pf => Some (w, h, rb, pf)
  | _, _, _, _ => None
  end.

(** The bound on what the accessor paths copy. *)
Definition accessor_bound (fr : Foreign) (bufferSize : Z) : Z :=
  match geometry fr with
  | Some (_, h, rb, _) => to_size_t (copySize bufferSize rb h)
  | None => 0
  end.

Definition is_detector (e : Event) : bool :=
  match e with
  | EvDetector _ => true
  | _ => false
  end.

Definition is_end_access (e : Event) : bool :=
  match e with
  | EvEndAccess _ => true
  | _ => false
  end.

Definition is_start_access (e : Event) : bool :=
  match e with
  | EvStartAccess _ => true
  | _ => false
  end.





(** An event of the part of the call that only negotiates capabilities. *)
Definition query_or_release (e : Event) : Prop :=
  match e with
  | EvQueryInterface _ | EvRelease _ => True
  | _ => False
  end.

(** The object answers the capability query for [iid] positively: the
    test of lines 232 and 308. *)
Definition capable (fr : Foreign) (iid : IID) : bool :=
  SUCCEEDED (fst (QI fr iid)) && negb (snd (QI fr iid) =? nullptr).

(** Lines 221-568: what [CopyDeckLinkFrameBytes] does once the geometry
    has been read. *)
Definition AfterGeometry (fr : Foreign) (fuel : nat)
    (unknown bufferSize width height rowBytes : Z) : M State Z :=
  '(hr, videoBuffer) <- QueryInterface fr IID_IDeckLinkVideoBuffer ;;
  result <- (if SUCCEEDED hr && negb (videoBuffer =? nullptr)
             then r <- VideoBufferPath fr bufferSize height rowBytes ;;
                  Release videoBuffer ;; ret r
             else ret 0) ;;
  if result =? 1 then ret result else
  '(hrLegacy, legacyFrame) <-
     QueryInterface fr IID_IDeckLinkVideoInputFrame_v14_2_1 ;;
  result <- (if SUCCEEDED hrLegacy && negb (legacyFrame =? nullptr)
             then r <- LegacyPath fr bufferSize height rowBytes ;;
                  Release legacyFrame ;; ret r
             else ret 0) ;;
  if result =? 1 then ret result else
  RawOffsetFallback fr fuel unknown bufferSize width height rowBytes.


(** An event that is not of the fallback. *)
Definition before_fallback (e : Event) : Prop :=
  match e with
  | EvAddRef _ | EvReadField280 | EvDetector _ => False
  | _ => True
  end.

(** An event of lines 146-186: one of the three validation queries, or
    the release of a pointer. *)
Definition validation_event (e : Event) : Prop :=
  match e with
  | EvQueryInterface IID_IUnknown
  | EvQueryInterface IID_IDeckLinkVideoFrame
  | EvQueryInterface IID_IDeckLinkVideoInputFrame
  | EvRelease _ => True
  | _ => False
  end.

(** [e] is a call on the interface that the capability query for [iid]
    gives: StartAccess, GetBytes and EndAccess for IDeckLinkVideoBuffer,
    the GetBytes of vtable[8] for the v14_2_1 interface. *)
Definition call_on (iid : IID) (e : Event) : Prop :=
  match iid, e with
  | IID_IDeckLinkVideoBuffer, (EvStartAccess _ | EvGetBytes | EvEndAccess _) =>
      True
  | IID_IDeckLinkVideoInputFrame_v14_2_1, EvLegacyGetBytes => True
  | _, _ => False
  end.

(** An event other than GetBytes and EndAccess on IDeckLinkVideoBuffer. *)
Definition outside_bracket (e : Event) : Prop :=
  match e with
  | EvGetBytes | EvEndAccess _ => False
  | _ => True
  end.

(** What an event does to the number of references the call holds on the
    frame object: a capability query that stores a pointer and an AddRef
    take one, a Release gives one back. *)
Definition reference_change (fr : Foreign) (e : Event) : Z :=
  match e with
  | EvQueryInterface iid => if snd (QI fr iid) =? nullptr then 0 else 1
  | EvAddRef _ => 1
  | EvRelease _ => -1
  | _ => 0
  end.

Fixpoint references_held (fr : Foreign) (tr : list Event) : Z :=
  match tr with
  | [] => 0
  | e :: tr' => reference_change fr e + references_held fr tr'
  end.

(** An event of an accessor path or of the copy: no reference is taken
    or given back. *)
Definition reference_free (e : Event) : Prop :=
  match e with
  | EvQueryInterface _ | EvAddRef _ | EvRelease _ => False
  | _ => True
  end.

(** The output pointer is null, or its accessor returns. *)
Definition obtainable (ptr : Z) (accessor : option Z) : Prop :=
  ptr = nullptr \/ accessor <> None.

(** The run [R] ends holding [n] references when it returns, and one more
    when a fault leaves it. *)
Definition ends_holding (fr : Foreign) (n : Z) (R : Outcome Z * State)
    : Prop :=
  (forall r, fst R = Val r -> references_held fr (trace (snd R)) = n) /\
  (fst R = Exc -> references_held fr (trace (snd R)) = n + 1).

(** Number of the samples [i], ..., [i + n - 1] of the detector whose
    fourth byte is 0xFF. *)
Fixpoint alpha_saturated (n : nat) (p : Z -> Z) (w h rb i : Z) : Z :=
  match n with
  | O => 0
  | S n' =>
      match Detector.sample_offset w h rb i with
      | Some offset =>
          (if p (offset + 3) =? 255 then 1 else 0)
          + alpha_saturated n' p w h rb (i + 1)
      | None => 0
      end
  end.

(** Every 4-byte group the detector samples holds [b0 b1 b2 b3]. *)
Definition uniform_samples (p : Z -> Z) (w h rb b0 b1 b2 b3 : Z) : Prop :=
  forall i offset,
    0 <= i < Detector.samples ->
    Detector.sample_offset w h rb i = Some offset ->
    p (offset + 0) = b0 /\ p (offset + 1) = b1 /\
    p (offset + 2) = b2 /\ p (offset + 3) = b3.

(** The locals of the detector after [i >= 1] samples that all were
    [b0 b1 b2 b3]. *)
Definition uniform_acc (b0 b1 b2 b3 i : Z) : Detector.Acc :=
  Detector.mkAcc
    (if b0 =? 255 then i else 0) (if b1 =? 255 then i else 0)
    (if b2 =? 255 then i else 0) (if b3 =? 255 then i else 0)
    (Detector.to_double b0) (Detector.to_double b1)
    (Detector.to_double b2) (Detector.to_double b3)
    0%float 0%float 0%float 0%float.

(** * Scenarios *)

(** Concrete calls: the frame handle is the address 4096, the destination
    buffer is at address 20480, and the memory a frame's pointers lead to
    starts at 131072 (0x20000). *)

(** The buffer before the call, zeroed, and nothing traced yet. *)
Definition s_init : State := mkState (fun _ => 0) [].

(** An object that answers only the IUnknown query. *)
Definition qi_base (i : IID) : HRESULT * Z :=
  match i with
  | IID_IUnknown => (S_OK, 4096)
  | _ => (E_NOINTERFACE, nullptr)
  end.

(** An object that also has the IDeckLinkVideoBuffer capability, and not
    the v14_2_1 one. *)
Definition qi_modern (i : IID) : HRESULT * Z :=
  match i with
  | IID_IUnknown => (S_OK, 4096)
  | IID_IDeckLinkVideoBuffer => (S_OK, 8192)
  | _ => (E_NOINTERFACE, nullptr)
  end.

(** A 4x1 frame of 8 bytes per row with no accessor capability, whose word
    at offset 280 points to readable memory. *)
Definition frame_raw_only : Foreign :=
  mkForeign qi_base (Some 4) (Some 1) (Some 8) (Some 0) (Some 0)
    None (fun _ => None) (fun _ => None) None
    131072 (fun a => Some (a mod 251)).

Definition run_raw_16 : Outcome Z * State :=
  CopyDeckLinkFrameBytes frame_raw_only 1 4096 20480 16 s_init.

(** A 4x1 frame with the IDeckLinkVideoBuffer capability whose pixel bytes
    are all 0xFF: the fourth lane is saturated. *)
Definition frame_modern_saturated : Foreign :=
  mkForeign qi_modern (Some 4) (Some 1) (Some 8) (Some 0) (Some 0)
    (Some (S_OK, 131072)) (fun _ => Some S_OK) (fun _ => Some S_OK) None
    0 (fun _ => Some 255).

Definition run_modern_saturated : Outcome Z * State :=
  CopyDeckLinkFrameBytes frame_modern_saturated 1 4096 20480 8 s_init.

(** A frame with the IDeckLinkVideoBuffer capability whose GetBytes hands
    out a pointer to memory that cannot be read. *)
Definition frame_modern_unreadable : Foreign :=
  mkForeign qi_modern (Some 4) (Some 1) (Some 8) (Some 0) (Some 0)
    (Some (S_OK, 131072)) (fun _ => Some S_OK) (fun _ => Some S_OK) None
    0 (fun _ => None).

Definition run_modern_unreadable : Outcome Z * State :=
  CopyDeckLinkFrameBytes frame_modern_unreadable 1 4096 20480 8 s_init.

(** A frame with only the IDeckLinkVideoBuffer capability whose
    StartAccess fails, and whose word at offset 280 points to readable
    memory. *)
Definition frame_modern_start_fails : Foreign :=
  mkForeign qi_modern (Some 4) (Some 1) (Some 8) (Some 0) (Some 0)
    (Some (S_OK, 131072)) (fun _ => Some E_FAIL) (fun _ => Some S_OK) None
    131072 (fun a => Some (a mod 251)).

Definition run_modern_start_fails : Outcome Z * State :=
  CopyDeckLinkFrameBytes frame_modern_start_fails 1 4096 20480 8 s_init.

(** A frame with no accessor capability whose word at offset 280 is in
    the plausible range but points to memory that cannot be read. *)
Definition frame_raw_unreadable : Foreign :=
  mkForeign qi_base (Some 4) (Some 1) (Some 8) (Some 0) (Some 0)
    None (fun _ => None) (fun _ => None) None
    131072 (fun _ => None).

Definition run_raw_unreadable_6 : Outcome Z * State :=
  CopyDeckLinkFrameBytes frame_raw_unreadable 2 4096 20480 6 s_init.

(** A 1920x1080 frame of 3840 bytes per row, no accessor capability,
    readable memory behind the word at offset 280. *)
Definition frame_raw_hd : Foreign :=
  mkForeign qi_base (Some 1920) (Some 1080) (Some 3840) (Some 0) (Some 0)
    None (fun _ => None) (fun _ => None) None
    131072 (fun a => Some (a mod 251)).

Definition run_raw_hd_8 : Outcome Z * State :=
  CopyDeckLinkFrameBytes frame_raw_hd 1 4096 20480 8 s_init.

(** The same frame reporting a height of 0. *)
Definition frame_raw_flat : Foreign :=
  mkForeign qi_base (Some 1920) (Some 0) (Some 3840) (Some 0) (Some 0)
    None (fun _ => None) (fun _ => None) None
    131072 (fun a => Some (a mod 251)).

Definition run_raw_flat_8 : Outcome Z * State :=
  CopyDeckLinkFrameBytes frame_raw_flat 1 4096 20480 8 s_init.

(** A frame with no accessor capability whose word at offset 280 points
    to 65536 readable bytes followed by unreadable memory. *)
Definition frame_raw_half : Foreign :=
  mkForeign qi_base (Some 1920) (Some 1080) (Some 3840) (Some 0) (Some 0)
    None (fun _ => None) (fun _ => None) None
    131072 (fun a => if a <? 196608 then Some (a mod 251) else None).




(** A 4x1 frame with no accessor capability whose word at offset 280
    points to readable bytes that are all 0xFF. *)
Definition frame_raw_saturated : Foreign :=
  mkForeign qi_base (Some 4) (Some 1) (Some 8) (Some 0) (Some 0)
    None (fun _ => None) (fun _ => None) None
    131072 (fun _ => Some 255).

Definition run_raw_saturated : Outcome Z * State :=
  CopyDeckLinkFrameBytes frame_raw_saturated 1 4096 20480 8 s_init.

(** An object that has only the v14_2_1 capability. *)
Definition qi_legacy (i : IID) : HRESULT * Z :=
  match i with
  | IID_IUnknown => (S_OK, 4096)
  | IID_IDeckLinkVideoInputFrame_v14_2_1 => (S_OK, 12288)
  | _ => (E_NOINTERFACE, nullptr)
  end.

(** A 4x1 frame with only the v14_2_1 capability, whose GetBytes hands
    out a pointer to readable memory. *)
Definition frame_legacy_only : Foreign :=
  mkForeign qi_legacy (Some 4) (Some 1) (Some 8) (Some 0) (Some 0)
    None (fun _ => None) (fun _ => None) (Some (S_OK, 131072))
    0 (fun a => Some (a mod 251)).

(** * Verification *)

(** ** Arithmetic of the machine integers *)

Lemma wrap32_small (z : Z) : int32 z -> wrap32 z = z.
Proof.
  unfold int32, wrap32. intros H. rewrite Z.mod_small; lia.
Qed.

Lemma wrap32_range (z : Z) : int32 (wrap32 z).
Proof.
  unfold int32, wrap32.
  pose proof (Z.mod_pos_bound (z + 2147483648) 4294967296). lia.
Qed.

Lemma to_size_t_small (z : Z) :
  0 <= z < 18446744073709551616 -> to_size_t z = z.
Proof. intros H. unfold to_size_t. apply Z.mod_small; lia. Qed.

Lemma to_size_t_range (z : Z) : 0 <= to_size_t z < 18446744073709551616.
Proof. unfold to_size_t. apply Z.mod_pos_bound. lia. Qed.

Lemma up4_bounds (n : Z) : n <= up4 n <= n + 3.
Proof.
  unfold up4. pose proof (Z.div_mod (n + 3) 4).
  pose proof (Z.mod_pos_bound (n + 3) 4). lia.
Qed.

Lemma up4_aligned (n : Z) : n mod 4 = 0 -> up4 n = n.
Proof.
  intros H. unfold up4. pose proof (Z.div_mod n 4).
  assert (E : n + 3 = (n / 4) * 4 + 3) by lia.
  rewrite E, Z.div_add_l by lia. change (3 / 4) with 0. lia.
Qed.

Lemma up4_next (n q : Z) : 4 * q < n -> 4 * q + 4 <= up4 n.
Proof.
  intros H. unfold up4. pose proof (Z.div_mod (n + 3) 4).
  pose proof (Z.mod_pos_bound (n + 3) 4). lia.
Qed.

(** ** Traces *)

Lemma extends_tr_refl P tr : extends_tr P tr tr.
Proof. exists []. split; [reflexivity | constructor]. Qed.

Lemma extends_tr_cons (P : Event -> Prop) e tr tr' :
  P e -> extends_tr P tr tr' -> extends_tr P tr (e :: tr').
Proof.
  intros H (p & -> & F). exists (e :: p). split; [reflexivity |].
  constructor; assumption.
Qed.

(** Closes [extends P s s'] when the trace of [s'] is an explicit list of
    events in front of the trace of [s] or of a state that extends [s]. *)
Ltac ext :=
  unfold extends; cbn [trace];
  repeat (apply extends_tr_cons; [cbn; auto; try lia |]);
  first [ apply extends_tr_refl | eassumption ].

Lemma extends_refl P s : extends P s s.
Proof. exists []. split; [reflexivity | constructor]. Qed.

Lemma extends_trans P s1 s2 s3 :
  extends P s1 s2 -> extends P s2 s3 -> extends P s1 s3.
Proof.
  intros (p1 & E1 & F1) (p2 & E2 & F2). exists (p2 ++ p1). split.
  - rewrite E2, E1. apply app_assoc.
  - apply Forall_app. split; assumption.
Qed.

Lemma extends_mono (P Q : Event -> Prop) s s' :
  (forall e, P e -> Q e) -> extends P s s' -> extends Q s s'.
Proof.
  intros H (p & E & F). exists p. split; [exact E |].
  eapply Forall_impl; eauto.
Qed.

Lemma extends_cons (P : Event -> Prop) e s s' :
  P e -> trace s' = e :: trace s -> extends P s s'.
Proof.
  intros H E. exists [e]. split; [exact E | repeat constructor; exact H].
Qed.

Lemma extends_emit (P : Event -> Prop) e s :
  P e -> extends P s (snd (emit e s)).
Proof. intros H. eapply extends_cons; eauto. Qed.

Lemma extends_In P s s' e :
  extends P s s' -> In e (trace s') -> P e \/ In e (trace s).
Proof.
  intros (p & E & F) H. rewrite E in H. apply in_app_or in H.
  destruct H as [H | H]; [left | right; exact H].
  rewrite Forall_forall in F. auto.
Qed.

Lemma bind_extends {A B} P (c : M State A) (k : A -> M State B) s :
  extends P s (snd (c s)) ->
  (forall a s1, extends P s1 (snd (k a s1))) ->
  extends P s (snd (bind c k s)).
Proof.
  intros Hc Hk. unfold bind. destruct (c s) as [[a | |] s1]; simpl in *; auto.
  eapply extends_trans; eauto.
Qed.

Lemma try_extends {A} P (body handler : M State A) s :
  extends P s (snd (body s)) ->
  (forall s1, extends P s1 (snd (handler s1))) ->
  extends P s (snd (try_except body handler s)).
Proof.
  intros Hb Hh. unfold try_except.
  destruct (body s) as [[a | |] s1]; simpl in *; auto.
  eapply extends_trans; eauto.
Qed.

Lemma ret_extends {A} P (a : A) s : extends P s (snd (ret a s)).
Proof. apply extends_refl. Qed.

Lemma for_acc_extends {A} (P : Event -> Prop) (Inv : Z -> Prop)
    cond next (body : Z -> A -> M State A) :
  (forall i acc s, Inv i -> cond i = true ->
     extends P s (snd (body i acc s)) /\ Inv (next i)) ->
  forall fuel i acc s,
    Inv i -> extends P s (snd (for_acc fuel cond next body i acc s)).
Proof.
  intros Hb. induction fuel as [| fuel IH]; intros i acc s Hi; simpl.
  - apply extends_refl.
  - destruct (cond i) eqn:C; [| apply extends_refl].
    destruct (Hb i acc s Hi C) as [E Hn].
    apply bind_extends; auto.
Qed.

(** ** memcpy and the byte stores *)

Lemma readable_prefix_bounds m n : forall a,
  0 <= readable_prefix m a n <= Z.of_nat n.
Proof.
  induction n as [| n IH]; intros a; cbn [readable_prefix].
  - lia.
  - destruct (m a); [specialize (IH (a + 1)) |]; lia.
Qed.

Lemma readable_prefix_full m n : forall a,
  (forall i, 0 <= i < Z.of_nat n -> m (a + i) <> None) ->
  readable_prefix m a n = Z.of_nat n.
Proof.
  induction n as [| n IH]; intros a H; cbn [readable_prefix].
  - reflexivity.
  - destruct (m a) eqn:E.
    + rewrite IH; [lia |]. intros i Hi.
      replace (a + 1 + i) with (a + (i + 1)) by lia. apply H. lia.
    + exfalso. apply (H 0); [lia |]. rewrite Z.add_0_r. exact E.
Qed.

Lemma readable_prefix_short m n : forall a i,
  0 <= i < Z.of_nat n -> m (a + i) = None ->
  readable_prefix m a n < Z.of_nat n.
Proof.
  induction n as [| n IH]; intros a i Hi E; cbn [readable_prefix].
  - lia.
  - destruct (m a) eqn:Ea; [| lia].
    assert (i <> 0) by (intros ->; rewrite Z.add_0_r in E; congruence).
    specialize (IH (a + 1) (i - 1)).
    replace (a + 1 + (i - 1)) with (a + i) in IH by lia.
    specialize (IH ltac:(lia) E). lia.
Qed.

(** What one [memcpy] does to the state. *)
Lemma memcpy_run fr doff src n s :
  let k := readable_prefix (memory fr) src (Z.to_nat (to_size_t n)) in
  let s' := mkState (blit (dst s) doff (memory fr) src k)
                    (EvWrite doff k :: trace s) in
  0 <= k <= to_size_t n /\
  (memcpy fr doff src n s = (Val tt, s') /\ k = to_size_t n \/
   memcpy fr doff src n s = (Exc, s') /\ k < to_size_t n).
Proof.
  intros k s'. pose proof (to_size_t_range n) as R.
  pose proof (readable_prefix_bounds (memory fr) (Z.to_nat (to_size_t n)) src) as B.
  rewrite Z2Nat.id in B by lia. fold k in B. split; [exact B |].
  unfold memcpy. fold k. fold s'.
  destruct (Z.eqb_spec k (to_size_t n)) as [E | E]; [left | right];
    (split; [reflexivity | lia]).
Qed.

Lemma memcpy_extends (P : Event -> Prop) fr doff src n s :
  (forall k, 0 <= k <= to_size_t n -> P (EvWrite doff k)) ->
  extends P s (snd (memcpy fr doff src n s)).
Proof.
  intros H. destruct (memcpy_run fr doff src n s) as [B [[E _] | [E _]]];
    rewrite E; simpl; eapply extends_cons; eauto.
Qed.

Lemma store_extends (P : Event -> Prop) off v s :
  P (EvWrite off 1) -> extends P s (snd (store off v s)).
Proof. intros H. eapply extends_cons; eauto. Qed.

(** ** The black fill *)

Lemma UYVY_black_lane (q r : Z) :
  0 <= r < 4 -> UYVY_black (4 * q + r) = nth (Z.to_nat r) [128; 16; 128; 16] 0.
Proof.
  intros H. unfold UYVY_black.
  rewrite Z.add_comm, Z.mul_comm, Z.mod_add, Z.mod_small by lia. reflexivity.
Qed.

Lemma FillBlack_extends pos n s :
  n <= 2147483643 -> extends (fill_write pos n) s (snd (FillBlack pos n s)).
Proof.
  intros Hn. unfold FillBlack.
  apply for_acc_extends with (Inv := fun i => exists q, i = 4 * q /\ 0 <= q).
  - intros i [] s0 (q & -> & Hq) C. apply Z.ltb_lt in C.
    pose proof (up4_next n q C) as U. split.
    + repeat (apply bind_extends; [| intros ? ?]);
        apply store_extends; eexists; (split; [reflexivity | lia]).
    + exists (q + 1). rewrite wrap32_small by (unfold int32; lia). lia.
  - exists 0. lia.
Qed.

Lemma fill_loop pos n (Hn : n <= 2147483643) : forall fuel q s,
  0 <= q -> (n + 3) / 4 - q < Z.of_nat fuel -> (0 < fuel)%nat ->
  exists s',
    for_acc fuel (fun i => i <? n) (fun i => wrap32 (i + 4))
      (fun i (_ : unit) =>
         store (pos + i) 128 ;; store (pos + (i + 1)) 16 ;;
         store (pos + (i + 2)) 128 ;; store (pos + (i + 3)) 16)
      (4 * q) tt s = (Val tt, s') /\
    forall o, dst s' o =
      if (pos + 4 * q <=? o) && (o <? pos + up4 n)
      then UYVY_black (o - pos) else dst s o.
Proof.
  induction fuel as [| fuel IH]; intros q s Hq Hf Hpos; [lia |].
  cbn [for_acc]. destruct (Z.ltb_spec (4 * q) n) as [C | C].
  - pose proof (up4_next n q C) as U.
    rewrite wrap32_small by (unfold int32; lia).
    replace (4 * q + 4) with (4 * (q + 1)) by lia.
    unfold bind at 1. cbn [store bind fst snd].
    match goal with |- context [for_acc fuel _ _ _ _ tt ?s1] =>
      destruct (IH (q + 1) s1) as (s' & E & D) end;
      [lia | unfold up4 in U; lia | unfold up4 in U; lia |].
    exists s'. split; [exact E |]. intros o. rewrite D. cbn [dst].
    destruct (Z.leb_spec (pos + 4 * (q + 1)) o), (Z.leb_spec (pos + 4 * q) o),
      (Z.ltb_spec o (pos + up4 n)); cbn [andb]; try lia; try reflexivity.
    all: repeat match goal with
                | |- context [?a =? ?b] => destruct (Z.eqb_spec a b) as [-> | ?]
                end;
      try lia; try reflexivity.
    all: match goal with
         | |- _ = UYVY_black (?p + ?x - ?p) =>
             replace (p + x - p) with x by lia
         end.
    all: try match goal with
             | |- _ = UYVY_black (4 * ?q') =>
                 rewrite <- (Z.add_0_r (4 * q'))
             end.
    all: rewrite UYVY_black_lane by lia; reflexivity.
  - exists s. split; [reflexivity |]. intros o.
    pose proof (up4_bounds n). unfold up4 in *.
    destruct (Z.leb_spec (pos + 4 * q) o), (Z.ltb_spec o (pos + 4 * ((n + 3) / 4)));
      cbn [andb]; try reflexivity.
    pose proof (Z.div_mod (n + 3) 4). pose proof (Z.mod_pos_bound (n + 3) 4). lia.
Qed.

Lemma FillBlack_run pos n s :
  n <= 2147483643 ->
  exists s',
    FillBlack pos n s = (Val tt, s') /\
    forall o, dst s' o =
      if (pos <=? o) && (o <? pos + up4 n) then UYVY_black (o - pos) else dst s o.
Proof.
  intros Hn. unfold FillBlack.
  destruct (fill_loop pos n Hn (S (Z.to_nat n)) 0 s) as (s' & E & D); try lia.
  - pose proof (Z.div_mod (n + 3) 4). pose proof (Z.mod_pos_bound (n + 3) 4). lia.
  - exists s'. split; [exact E |]. intros o. rewrite D.
    replace (pos + 4 * 0) with pos by lia. reflexivity.
Qed.

(** ** The chunked copy *)

Lemma write_within_intro (n off len : Z) :
  0 <= off -> off + len <= n -> write_within n (EvWrite off len).
Proof. intros H1 H2 off' len' E _. injection E as <- <-. lia. Qed.

Lemma write_within_mono (n n' : Z) e :
  n <= n' -> write_within n e -> write_within n' e.
Proof. intros H W off len E L. specialize (W off len E L). lia. Qed.

Lemma FillBlack_only_writes pos n s :
  extends is_write s (snd (FillBlack pos n s)).
Proof.
  unfold FillBlack. apply for_acc_extends with (Inv := fun _ => True); auto.
  intros i [] s0 _ _. split; [| exact I].
  repeat (apply bind_extends; [| intros ? ?]);
    apply store_extends; eexists; eexists; reflexivity.
Qed.

Lemma CopyChunk_only_writes fr src bufferSize pos acc s :
  extends is_write s (snd (CopyChunk fr src bufferSize pos acc s)).
Proof.
  unfold CopyChunk. apply try_extends.
  - apply bind_extends; [| intros; apply ret_extends].
    apply memcpy_extends. intros k _. eexists; eexists; reflexivity.
  - intros s1. apply bind_extends; [| intros; apply ret_extends].
    apply FillBlack_only_writes.
Qed.

Lemma RawCopy_only_writes fr fuel src bufferSize s :
  extends is_write s (snd (RawCopy fr fuel src bufferSize s)).
Proof.
  unfold RawCopy. apply try_extends.
  - apply bind_extends; [| intros; apply ret_extends].
    apply memcpy_extends. intros k _. eexists; eexists; reflexivity.
  - intros s1. unfold ChunkedCopy.
    apply for_acc_extends with (Inv := fun _ => True); auto.
    intros i acc s2 _ _. split; [| exact I]. apply CopyChunk_only_writes.
Qed.

Lemma thisChunk_of_spec bufferSize pos :
  0 <= pos < bufferSize -> bufferSize <= 2147418112 ->
  thisChunk_of bufferSize pos = Z.min chunkSize (bufferSize - pos).
Proof.
  intros Hp Hb. unfold thisChunk_of, chunkSize.
  rewrite !wrap32_small by (unfold int32; lia).
  destruct (Z.leb_spec (pos + 65536) bufferSize); lia.
Qed.

Lemma up4_chunk (a t B : Z) : 4 * a + t <= B -> 4 * a + up4 t <= up4 B.
Proof.
  intros H. unfold up4.
  pose proof (Z.div_mod (t + 3) 4). pose proof (Z.mod_pos_bound (t + 3) 4).
  pose proof (Z.div_mod (B + 3) 4). pose proof (Z.mod_pos_bound (B + 3) 4).
  lia.
Qed.

(** With no overflow in [pos + chunkSize], every store of the raw copy
    lands below [up4 bufferSize]; beyond [bufferSize] only when the last
    chunk is blanked and its length is not a multiple of 4. *)
Lemma RawCopy_writes_within fr fuel src bufferSize s :
  0 < bufferSize <= 2147418112 ->
  extends (write_within (up4 bufferSize)) s
          (snd (RawCopy fr fuel src bufferSize s)).
Proof.
  intros HB. pose proof (up4_bounds bufferSize) as U.
  unfold RawCopy. apply try_extends.
  - apply bind_extends; [| intros; apply ret_extends].
    apply memcpy_extends. rewrite to_size_t_small by lia.
    intros k Hk. apply write_within_intro; lia.
  - intros s1. unfold ChunkedCopy.
    apply for_acc_extends
      with (Inv := fun pos => exists j, pos = chunkSize * j /\ 0 <= j).
    + intros pos acc s2 (j & -> & Hj) C. apply Z.ltb_lt in C.
      unfold chunkSize in *. split.
      * unfold CopyChunk.
        rewrite thisChunk_of_spec by lia. unfold chunkSize.
        apply try_extends.
        -- apply bind_extends; [| intros; apply ret_extends].
           apply memcpy_extends. rewrite to_size_t_small by lia.
           intros k Hk. apply write_within_intro; lia.
        -- intros s3. apply bind_extends; [| intros; apply ret_extends].
           eapply extends_mono; [| apply FillBlack_extends; lia].
           intros e (off & -> & Ho).
           pose proof (up4_chunk (16384 * j)
                         (Z.min 65536 (bufferSize - 65536 * j)) bufferSize).
           apply write_within_intro; lia.
      * exists (j + 1). rewrite wrap32_small by (unfold int32; lia). lia.
    + exists 0. unfold chunkSize. lia.
Qed.

(** *** One chunk, and the loop when exactly one chunk faults *)

Lemma CopyChunk_run fr src bufferSize pos acc s :
  0 < bufferSize <= 2147418112 -> 0 <= pos < bufferSize -> 0 <= acc <= pos ->
  exists s',
    CopyChunk fr src bufferSize pos acc s
    = (Val (acc + if chunk_ok fr src bufferSize pos
                  then chunk_len bufferSize pos else 0), s') /\
    (forall o, o < pos -> dst s' o = dst s o) /\
    (forall o, pos <= o < pos + chunk_len bufferSize pos ->
       dst s' o = if chunk_ok fr src bufferSize pos
                  then load (memory fr) (src + o)
                  else UYVY_black (o - pos)).
Proof.
  intros HB Hp Ha. unfold CopyChunk, chunk_ok.
  rewrite thisChunk_of_spec by lia. fold (chunk_len bufferSize pos).
  assert (L : 0 < chunk_len bufferSize pos <= 65536)
    by (unfold chunk_len, chunkSize; lia).
  set (len := chunk_len bufferSize pos) in *.
  unfold try_except, bind.
  destruct (memcpy_run fr pos (src + pos) len s) as [B [[E Ek] | [E Ek]]];
    rewrite E; rewrite to_size_t_small in * by lia; cbn [ret].
  - rewrite Ek, Z.eqb_refl, wrap32_small by (unfold int32; lia).
    eexists. split; [reflexivity |]. cbn [dst]. unfold blit. split; intros o Ho.
    + destruct (Z.leb_spec pos o); [lia | reflexivity].
    + destruct (Z.leb_spec pos o), (Z.ltb_spec o (pos + len)); try lia.
      cbn [andb]. f_equal. lia.
  - destruct (Z.eqb_spec (readable_prefix (memory fr) (src + pos) (Z.to_nat len)) len);
      [lia |].
    match goal with |- context [FillBlack pos len ?s1] =>
      destruct (FillBlack_run pos len s1) as (s2 & F & D) end; [lia |].
    rewrite F. unfold ret. exists s2. split; [f_equal; f_equal; lia |].
    pose proof (up4_bounds len).
    split; intros o Ho; rewrite D; cbn [dst]; unfold blit.
    + destruct (Z.leb_spec pos o); [lia |]. reflexivity.
    + destruct (Z.leb_spec pos o), (Z.ltb_spec o (pos + up4 len)); try lia.
      reflexivity.
Qed.

Lemma readable_prefix_stop m n : forall a,
  readable_prefix m a n < Z.of_nat n ->
  m (a + readable_prefix m a n) = None.
Proof.
  induction n as [| n IH]; intros a H; cbn [readable_prefix] in *.
  - lia.
  - destruct (m a) eqn:E.
    + rewrite Z.add_assoc. apply IH. lia.
    + rewrite Z.add_0_r. exact E.
Qed.

Section OneFault.

Variables (fr : Foreign) (src bufferSize k : Z).

Hypothesis HB : 0 < bufferSize <= 2147418112.
Hypothesis Hk : 0 <= k /\ chunkSize * k < bufferSize.

(** The copy of chunk [k] faults; the copy of every other chunk does not. *)
Hypothesis chunk_k_faults : chunk_ok fr src bufferSize (chunkSize * k) = false.
Hypothesis other_chunks_copy : forall j,
  0 <= j -> chunkSize * j < bufferSize -> j <> k ->
  chunk_ok fr src bufferSize (chunkSize * j) = true.

Lemma bulk_copy_faults :
  readable_prefix (memory fr) src (Z.to_nat bufferSize) < bufferSize.
Proof.
  pose proof chunk_k_faults as F. unfold chunk_ok in F. apply Z.eqb_neq in F.
  assert (L : 0 < chunk_len bufferSize (chunkSize * k)
              /\ chunkSize * k + chunk_len bufferSize (chunkSize * k) <= bufferSize)
    by (unfold chunk_len, chunkSize in *; lia).
  set (n := Z.to_nat (chunk_len bufferSize (chunkSize * k))) in *.
  pose proof (readable_prefix_bounds (memory fr) n (src + chunkSize * k)) as B.
  assert (En : Z.of_nat n = chunk_len bufferSize (chunkSize * k))
    by (subst n; apply Z2Nat.id; lia).
  pose proof (readable_prefix_stop (memory fr) n (src + chunkSize * k)
                ltac:(lia)) as S.
  set (p := readable_prefix (memory fr) (src + chunkSize * k) n) in *.
  pose proof (readable_prefix_short (memory fr) (Z.to_nat bufferSize) src
                (chunkSize * k + p)) as T.
  rewrite Z2Nat.id in T by lia. apply T.
  - unfold chunkSize in *. lia.
  - rewrite <- S. f_equal. lia.
Qed.

Lemma chunk_loop_one_fault : forall (n fuel : nat) (j acc : Z) (s : State),
  0 <= j -> bufferSize <= chunkSize * (j + Z.of_nat n) -> (n < fuel)%nat ->
  0 <= acc <= chunkSize * j ->
  exists s',
    for_acc fuel (fun pos => pos <? bufferSize)
      (fun pos => wrap32 (pos + chunkSize)) (CopyChunk fr src bufferSize)
      (chunkSize * j) acc s
    = (Val (acc + Z.max 0 (bufferSize - chunkSize * j)
            - (if j <=? k then chunk_len bufferSize (chunkSize * k) else 0)),
       s') /\
    (forall o, o < chunkSize * j -> dst s' o = dst s o) /\
    (forall o, chunkSize * j <= o < bufferSize ->
       dst s' o = if in_chunk bufferSize k o then UYVY_black (o - chunkSize * k)
                  else load (memory fr) (src + o)).
Proof.
  induction n as [| n IH]; intros fuel j acc s Hj Hn Hf Ha;
    (destruct fuel as [| fuel]; [lia |]); cbn [for_acc].
  - destruct (Z.ltb_spec (chunkSize * j) bufferSize); [lia |].
    exists s. unfold ret. split; [| split; [reflexivity | intros; lia]].
    do 2 f_equal. destruct (Z.leb_spec j k); unfold chunkSize in *; lia.
  - destruct (Z.ltb_spec (chunkSize * j) bufferSize) as [C | C].
    + destruct (CopyChunk_run fr src bufferSize (chunkSize * j) acc s HB)
        as (s1 & E1 & F1 & D1); [lia | lia |].
      unfold bind at 1. rewrite E1.
      rewrite wrap32_small by (unfold int32, chunkSize in *; lia).
      replace (chunkSize * j + chunkSize) with (chunkSize * (j + 1))
        by (unfold chunkSize; lia).
      assert (L : 0 < chunk_len bufferSize (chunkSize * j) <= chunkSize
                  /\ chunkSize * j + chunk_len bufferSize (chunkSize * j)
                     <= bufferSize)
        by (unfold chunk_len, chunkSize in *; lia).
      match goal with |- context [for_acc fuel _ _ _ _ ?a s1] =>
        destruct (IH fuel (j + 1) a s1) as (s' & E & F & D) end;
        [lia | lia | lia | |].
      { destruct (chunk_ok fr src bufferSize (chunkSize * j));
          unfold chunkSize in *; lia. }
      exists s'. rewrite E. split; [| split].
      * do 2 f_equal. destruct (Z.eq_dec j k) as [-> | N].
        -- rewrite chunk_k_faults, Z.leb_refl.
           destruct (Z.leb_spec (k + 1) k); [lia |].
           unfold chunk_len, chunkSize in *. lia.
        -- rewrite other_chunks_copy by lia.
           destruct (Z.leb_spec j k), (Z.leb_spec (j + 1) k);
             unfold chunk_len, chunkSize in *; lia.
      * intros o Ho. rewrite F by (unfold chunkSize in *; lia). apply F1, Ho.
      * intros o Ho.
        destruct (Z.lt_ge_cases o (chunkSize * (j + 1))) as [Lt | Ge];
          [| apply D; lia].
        rewrite F by exact Lt. rewrite D1 by (unfold chunk_len, chunkSize in *; lia).
        unfold in_chunk. destruct (Z.eq_dec j k) as [-> | N].
        -- rewrite chunk_k_faults.
           destruct (Z.leb_spec (chunkSize * k) o),
             (Z.ltb_spec o (chunkSize * k + chunk_len bufferSize (chunkSize * k)));
             unfold chunk_len, chunkSize in *; try lia. reflexivity.
        -- rewrite other_chunks_copy by lia.
           destruct (Z.leb_spec (chunkSize * k) o),
             (Z.ltb_spec o (chunkSize * k + chunk_len bufferSize (chunkSize * k)));
             try reflexivity.
           unfold chunk_len, chunkSize in *. lia.
    + exists s. unfold ret. split; [| split; [reflexivity | intros; lia]].
      do 2 f_equal. destruct (Z.leb_spec j k); unfold chunkSize in *; lia.
Qed.

(** The raw copy when the bulk copy faults and only chunk [k] faults in
    the chunked copy: the value is [bytesCopied]. *)
Lemma RawCopy_one_fault (fuel : nat) (s : State) :
  (Z.to_nat (bufferSize / chunkSize) + 2 <= fuel)%nat ->
  exists s',
    RawCopy fr fuel src bufferSize s
    = (Val (bufferSize - chunk_len bufferSize (chunkSize * k)), s') /\
    (forall o, 0 <= o < bufferSize ->
       dst s' o = if in_chunk bufferSize k o then UYVY_black (o - chunkSize * k)
                  else load (memory fr) (src + o)).
Proof.
  intros Hf. unfold RawCopy, try_except, bind.
  destruct (memcpy_run fr 0 src bufferSize s) as [B [[E Ek] | [E Ek]]];
    rewrite to_size_t_small in * by lia.
  - pose proof bulk_copy_faults. lia.
  - rewrite E. unfold ChunkedCopy.
    pose proof (Z.div_mod bufferSize chunkSize ltac:(unfold chunkSize; lia)) as DM.
    pose proof (Z.mod_pos_bound bufferSize chunkSize ltac:(unfold chunkSize; lia)).
    assert (0 <= bufferSize / chunkSize)
      by (apply Z.div_pos; unfold chunkSize; lia).
    match goal with |- context [for_acc fuel _ _ _ 0 0 ?s1] =>
      destruct (chunk_loop_one_fault
                  (S (Z.to_nat (bufferSize / chunkSize))) fuel 0 0 s1)
        as (s' & E' & _ & D) end; try lia.
    + rewrite Nat2Z.inj_succ, Z2Nat.id by lia. lia.
    + replace (chunkSize * 0) with 0 in * by lia. exists s'. split.
      * rewrite E'. do 2 f_equal. destruct (Z.leb_spec 0 k); lia.
      * intros o Ho. apply D. exact Ho.
Qed.

End OneFault.

(** ** The verdict and the raw-offset fallback *)

Lemma Verdict_run unknown bufferSize width height rowBytes bytesCopied s :
  Verdict unknown bufferSize width height rowBytes bytesCopied s =
  if bytesCopied >? Z.quot bufferSize 2 then
    match Detector.LooksLikeCorruptBGRA (dst s) width height rowBytes with
    | Some v =>
        (Val (if v then -1 else 1),
         mkState (dst s) (EvRelease unknown :: EvDetector (Some v) :: trace s))
    | None => (Exc, mkState (dst s) (EvDetector None :: trace s))
    end
  else (Val 0, mkState (dst s) (EvRelease unknown :: trace s)).
Proof.
  unfold Verdict, detect, bind, Release, emit, ret.
  destruct (Z.gtb_spec bytesCopied (Z.quot bufferSize 2)) as [G | G].
  - destruct (Detector.LooksLikeCorruptBGRA (dst s) width height rowBytes)
      as [v |]; cbn [dst trace]; [| reflexivity].
    destruct (Z.leb_spec bytesCopied (Z.quot bufferSize 2)); [lia |].
    destruct v; reflexivity.
  - cbn [dst trace].
    destruct (Z.leb_spec bytesCopied (Z.quot bufferSize 2)); [| lia].
    reflexivity.
Qed.

Lemma RawOffsetFallback_run fr fuel unknown bufferSize width height rowBytes s :
  RawOffsetFallback fr fuel unknown bufferSize width height rowBytes s =
  if plausible (field280 fr) then
    bind (RawCopy fr fuel (field280 fr) bufferSize)
         (Verdict unknown bufferSize width height rowBytes) (entered unknown s)
  else
    (Val 0, mkState (dst s)
              (EvRelease unknown :: EvReadField280 :: EvAddRef unknown :: trace s)).
Proof.
  unfold RawOffsetFallback, plausible, AddRef, Release, emit, ret.
  unfold bind at 1 2 3. cbn [dst trace].
  destruct (field280 fr =? nullptr); cbn [negb andb]; [reflexivity |].
  destruct ((field280 fr <? 65536) || (field280 fr >=? 140733193388032));
    reflexivity.
Qed.

(** ** The accessor paths *)

Lemma VideoBufferPath_spec fr bufferSize height rowBytes s :
  exists r s',
    VideoBufferPath fr bufferSize height rowBytes s = (Val r, s') /\
    (r = 0 \/ r = 1) /\
    extends (prefix_event (to_size_t (copySize bufferSize rowBytes height))) s s'.
Proof.
  unfold VideoBufferPath, try_except, bind, foreign, emit, ret, raise.
  cbn [dst trace].
  destruct (vb_StartAccess fr bmdBufferAccessRead) as [hr |];
    [| do 2 eexists; split; [reflexivity | split; [auto | ext]]].
  destruct (SUCCEEDED hr);
    [| do 2 eexists; split; [reflexivity | split; [auto | ext]]].
  destruct (vb_GetBytes fr) as [[hr2 srcPtr] |];
    [| do 2 eexists; split; [reflexivity | split; [auto | ext]]].
  destruct (SUCCEEDED hr2 && negb (srcPtr =? nullptr)).
  - match goal with |- context [memcpy fr 0 srcPtr ?n ?s1] =>
      destruct (memcpy_run fr 0 srcPtr n s1) as [B [[E _] | [E _]]] end;
      rewrite E; cbn [dst trace].
    + destruct (vb_EndAccess fr bmdBufferAccessRead);
        do 2 eexists; (split; [reflexivity | split; [auto | ext]]).
    + do 2 eexists; (split; [reflexivity | split; [auto | ext]]).
  - destruct (vb_EndAccess fr bmdBufferAccessRead);
      do 2 eexists; (split; [reflexivity | split; [auto | ext]]).
Qed.

Lemma LegacyPath_spec fr bufferSize height rowBytes s :
  exists r s',
    LegacyPath fr bufferSize height rowBytes s = (Val r, s') /\
    (r = 0 \/ r = 1) /\
    extends (prefix_event (to_size_t (copySize bufferSize rowBytes height))) s s'.
Proof.
  unfold LegacyPath, try_except, bind, foreign, emit, ret, raise.
  cbn [dst trace].
  destruct (legacy_GetBytes fr) as [[hr srcPtr] |];
    [| do 2 eexists; split; [reflexivity | split; [auto | ext]]].
  destruct (SUCCEEDED hr && negb (srcPtr =? nullptr)).
  - match goal with |- context [memcpy fr 0 srcPtr ?n ?s1] =>
      destruct (memcpy_run fr 0 srcPtr n s1) as [B [[E _] | [E _]]] end;
      rewrite E; cbn [dst trace];
      do 2 eexists; (split; [reflexivity | split; [auto | ext]]).
  - do 2 eexists; (split; [reflexivity | split; [auto | ext]]).
Qed.

Lemma ReadGeometry_run fr s : ReadGeometry fr s = (Val (geometry fr), s).
Proof.
  unfold ReadGeometry, geometry, try_except, bind, foreign, ret, raise.
  destruct (vt_GetWidth fr), (vt_GetHeight fr), (vt_GetRowBytes fr),
    (vt_GetPixelFormat fr); reflexivity.
Qed.

Lemma bind_run {S A B} (c : M S A) (k : A -> M S B) s a s' :
  c s = (Val a, s') -> bind c k s = k a s'.
Proof. intros E. unfold bind. rewrite E. reflexivity. Qed.

Lemma when_Release_bind {B} (b : bool) (p : Z) (k : unit -> M State B) s :
  bind (if b then Release p else ret tt) k s
  = k tt (mkState (dst s) (if b then EvRelease p :: trace s else trace s)).
Proof. destruct b; [reflexivity |]. destruct s; reflexivity. Qed.

Ltac step := cbn [bind ret emit Release AddRef fst snd dst trace].

(** Either the call returns before the fallback, with 0 or 1, or it is the
    fallback run from a state the earlier part left. *)
Lemma Copy_cases fr fuel framePtr buffer bufferSize s :
  let r := CopyDeckLinkFrameBytes fr fuel framePtr buffer bufferSize s in
  (exists z, fst r = Val z /\ (z = 0 \/ z = 1) /\
             extends (prefix_event (accessor_bound fr bufferSize)) s (snd r) /\
             (0 < bufferSize \/ snd r = s))
  \/
  (exists s1 w h rb pf,
      geometry fr = Some (w, h, rb, pf) /\
      0 < bufferSize /\
      extends (prefix_event (accessor_bound fr bufferSize)) s s1 /\
      r = RawOffsetFallback fr fuel framePtr bufferSize w h rb s1).
Proof.
  intros r. subst r.
  unfold CopyDeckLinkFrameBytes, QueryInterface, when.
  destruct ((framePtr =? nullptr) || (buffer =? nullptr) || (bufferSize <=? 0))
    eqn:G; [left; exists 0; step; repeat split; auto; ext |].
  apply orb_false_iff in G. destruct G as [_ G]. apply Z.leb_gt in G.
  destruct (QI fr IID_IUnknown) as [hrTest testUnk].
  destruct (QI fr IID_IDeckLinkVideoFrame) as [hrVF testVF].
  destruct (QI fr IID_IDeckLinkVideoInputFrame) as [hrVIF testVIF].
  destruct (QI fr IID_IDeckLinkVideoBuffer) as [hr videoBuffer].
  destruct (QI fr IID_IDeckLinkVideoInputFrame_v14_2_1)
    as [hrLegacy legacyFrame].
  step.
  destruct (FAILED hrTest || (testUnk =? nullptr));
    [left; exists 0; step; repeat split; auto; ext |].
  step. rewrite when_Release_bind. step. rewrite when_Release_bind. step.
  match goal with |- context [bind (ReadGeometry fr) _ ?st] => set (s0 := st) end.
  assert (X0 : extends (prefix_event (accessor_bound fr bufferSize)) s s0).
  { subst s0. destruct (negb (testVF =? nullptr)), (negb (testVIF =? nullptr));
      ext. }
  clearbody s0.
  rewrite (bind_run _ _ _ _ _ (ReadGeometry_run fr s0)).
  unfold accessor_bound in *.
  destruct (geometry fr) as [[[[w h] rb] pf] |];
    [| left; exists 0; step; repeat split; auto].
  set (bound := to_size_t (copySize bufferSize rb h)) in *.
  step.
  (* the IDeckLinkVideoBuffer path *)
  match goal with |- context [bind _ _ ?st] => set (sa := st) end.
  assert (Xa : extends (prefix_event bound) s sa) by (subst sa; ext).
  clearbody sa.
  assert (X1 : exists r1 s1,
             (if SUCCEEDED hr && negb (videoBuffer =? nullptr)
              then r <- VideoBufferPath fr bufferSize h rb ;;
                   Release videoBuffer ;; ret r
              else ret 0) sa = (Val r1, s1) /\
             (r1 = 0 \/ r1 = 1) /\ extends (prefix_event bound) s s1).
  { destruct (SUCCEEDED hr && negb (videoBuffer =? nullptr)).
    - destruct (VideoBufferPath_spec fr bufferSize h rb sa)
        as (r1 & s1 & E & Hr & X).
      rewrite (bind_run _ _ _ _ _ E). step. do 2 eexists.
      split; [reflexivity |]. split; [exact Hr |].
      eapply extends_trans; [exact Xa |]. eapply extends_trans; [exact X |]. ext.
    - do 2 eexists. split; [reflexivity |]. split; [auto | exact Xa]. }
  destruct X1 as (r1 & s1 & E1 & Hr1 & X1).
  rewrite (bind_run _ _ _ _ _ E1). clear E1.
  destruct Hr1 as [-> | ->];
    [| left; exists 1; step; repeat split; auto].
  cbn [Z.eqb]. step.
  (* the v14_2_1 path *)
  match goal with |- context [bind _ _ ?st] => set (sb := st) end.
  assert (Xb : extends (prefix_event bound) s sb)
    by (subst sb; eapply extends_trans; [exact X1 |]; ext).
  clearbody sb.
  assert (X2 : exists r2 s2,
             (if SUCCEEDED hrLegacy && negb (legacyFrame =? nullptr)
              then r <- LegacyPath fr bufferSize h rb ;;
                   Release legacyFrame ;; ret r
              else ret 0) sb = (Val r2, s2) /\
             (r2 = 0 \/ r2 = 1) /\ extends (prefix_event bound) s s2).
  { destruct (SUCCEEDED hrLegacy && negb (legacyFrame =? nullptr)).
    - destruct (LegacyPath_spec fr bufferSize h rb sb)
        as (r2 & s2 & E & Hr & X).
      rewrite (bind_run _ _ _ _ _ E). step. do 2 eexists.
      split; [reflexivity |]. split; [exact Hr |].
      eapply extends_trans; [exact Xb |]. eapply extends_trans; [exact X |]. ext.
    - do 2 eexists. split; [reflexivity |]. split; [auto | exact Xb]. }
  destruct X2 as (r2 & s2 & E2 & Hr2 & X2).
  rewrite (bind_run _ _ _ _ _ E2). clear E2.
  destruct Hr2 as [-> | ->];
    [| left; exists 1; step; repeat split; auto].
  cbn [Z.eqb]. right. exists s2, w, h, rb, pf. auto.
Qed.

Lemma extends_keeps P s s' e :
  extends P s s' -> In e (trace s) -> In e (trace s').
Proof. intros (p & -> & _) H. apply in_or_app. right. exact H. Qed.

Lemma Verdict_extends (P : Event -> Prop) unknown bufferSize w h rb bc s :
  P (EvRelease unknown) -> (forall v, P (EvDetector v)) ->
  extends P s (snd (Verdict unknown bufferSize w h rb bc s)).
Proof.
  intros H1 H2. rewrite Verdict_run.
  destruct (bc >? Z.quot bufferSize 2);
    [destruct (Detector.LooksLikeCorruptBGRA (dst s) w h rb) |]; ext.
Qed.

(** The fallback always reads the word at offset 280. *)
Lemma RawOffsetFallback_reads_field fr fuel unknown bufferSize w h rb s :
  In EvReadField280
     (trace (snd (RawOffsetFallback fr fuel unknown bufferSize w h rb s))).
Proof.
  rewrite RawOffsetFallback_run. destruct (plausible (field280 fr)).
  - eapply extends_keeps with (P := fun _ => True) (s := entered unknown s).
    + apply bind_extends.
      * eapply extends_mono; [| apply RawCopy_only_writes]. auto.
      * intros. apply Verdict_extends; auto.
    + cbn. auto.
  - cbn. auto.
Qed.

Lemma RawOffsetFallback_writes_within fr fuel unknown bufferSize w h rb s :
  0 < bufferSize <= 2147418112 ->
  extends (write_within (up4 bufferSize)) s
          (snd (RawOffsetFallback fr fuel unknown bufferSize w h rb s)).
Proof.
  intros HB. rewrite RawOffsetFallback_run.
  assert (NW : forall e, (forall off len, e <> EvWrite off len) ->
                         write_within (up4 bufferSize) e).
  { intros e H off len E. exfalso. exact (H off len E). }
  destruct (plausible (field280 fr)).
  - apply extends_trans with (s2 := entered unknown s).
    + unfold entered. unfold extends. cbn [trace].
      repeat (apply extends_tr_cons; [apply NW; discriminate |]).
      apply extends_tr_refl.
    + apply bind_extends.
      * apply RawCopy_writes_within. exact HB.
      * intros. apply Verdict_extends; intros; apply NW; discriminate.
  - unfold extends. cbn [snd trace].
    repeat (apply extends_tr_cons; [apply NW; discriminate |]).
    apply extends_tr_refl.
Qed.

(** ** C1: the number of bytes written *)

(** C1, as stated, fails on the raw-offset fallback: for a frame whose
    geometry gives rowBytes*height = 8 and a 16-byte buffer, the fallback
    copies 16 bytes, more than min(16, 8) = 8, and byte 15 of the buffer is
    overwritten; the call returns 1. *)
Lemma C1_fallback_copies_bufferSize :
  geometry frame_raw_only = Some (4, 1, 8, 0) /\
  Z.min 16 (8 * 1) = 8 /\
  fst run_raw_16 = Val 1 /\
  In (EvWrite 0 16) (trace (snd run_raw_16)) /\
  ~ write_within (Z.min 16 (8 * 1)) (EvWrite 0 16) /\
  dst (snd run_raw_16) 15 <> dst s_init 15.
Proof.
  split; [reflexivity |]. split; [reflexivity |].
  split; [vm_compute; reflexivity |].
  split; [vm_compute; tauto |].
  split.
  - intros W. specialize (W 0 16 eq_refl ltac:(lia)). vm_compute in W.
    destruct W as [_ W]. apply W. reflexivity.
  - vm_compute. discriminate.
Qed.

Lemma copySize_min bufferSize rb h :
  0 < bufferSize -> 0 <= wrap32 (rb * h) ->
  to_size_t (copySize bufferSize rb h) = Z.min bufferSize (wrap32 (rb * h)).
Proof.
  intros Hb Hp. pose proof (wrap32_range (rb * h)) as R. unfold int32 in R.
  unfold copySize.
  destruct (Z.ltb_spec bufferSize (wrap32 (rb * h)));
    rewrite to_size_t_small by lia; lia.
Qed.

Lemma prefix_event_within bound n e :
  bound <= n -> prefix_event bound e -> write_within n e.
Proof.
  intros H P off len -> _. cbn in P. lia.
Qed.

(** C1, amended: with the geometry the accessors report and a
    non-negative rowBytes*height, whenever the call does not enter the
    raw-offset fallback every store lands in the first
    min(bufferSize, rowBytes*height) bytes of the buffer; on every path,
    the fallback included, every store lands in the first bufferSize bytes
    (for a bufferSize that is a multiple of 4 and at most 2^31 - 65536). *)
Theorem C1_bytes_written_bound
    fr fuel framePtr buffer bufferSize s out s' w h rb pf :
  geometry fr = Some (w, h, rb, pf) ->
  0 <= wrap32 (rb * h) ->
  CopyDeckLinkFrameBytes fr fuel framePtr buffer bufferSize s = (out, s') ->
  (~ In EvReadField280 (trace s') ->
   extends (write_within (Z.min bufferSize (wrap32 (rb * h)))) s s') /\
  (bufferSize mod 4 = 0 -> bufferSize <= 2147418112 ->
   extends (write_within bufferSize) s s').
Proof.
  intros Hg Hp E.
  pose proof (Copy_cases fr fuel framePtr buffer bufferSize s) as C.
  cbv zeta in C. rewrite E in C. cbn [fst snd] in C.
  unfold accessor_bound in C. rewrite Hg in C.
  destruct C as [(z & _ & _ & X & G) | (s1 & w' & h' & rb' & pf' & Hg' & G & X & R)].
  - destruct G as [G | ->]; [| split; intros; apply extends_refl].
    rewrite copySize_min in X by assumption.
    split; intros.
    + eapply extends_mono; [| exact X]. intros e.
      apply prefix_event_within. lia.
    + eapply extends_mono; [| exact X]. intros e.
      apply prefix_event_within. lia.
  - assert (Hs' : s' = snd (RawOffsetFallback fr fuel framePtr bufferSize w' h' rb' s1))
      by (rewrite <- R; reflexivity).
    split.
    + intros N. exfalso. apply N. rewrite Hs'.
      apply RawOffsetFallback_reads_field.
    + intros M4 HB. rewrite copySize_min in X by assumption.
      apply extends_trans with (s2 := s1).
      * eapply extends_mono; [| exact X]. intros e.
        apply prefix_event_within. lia.
      * pose proof (RawOffsetFallback_writes_within fr fuel framePtr
                      bufferSize w' h' rb' s1 ltac:(lia)) as W.
        rewrite (up4_aligned bufferSize M4) in W. rewrite Hs'. exact W.
Qed.

(** C1, amended, at the 16-byte call on [frame_raw_only]. *)
Lemma C1_bytes_written_bound_witness :
  extends (write_within 16) s_init (snd run_raw_16).
Proof.
  apply (C1_bytes_written_bound frame_raw_only 1 4096 20480 16 s_init
           (fst run_raw_16) (snd run_raw_16) 4 1 8 0).
  - reflexivity.
  - vm_compute. discriminate.
  - apply surjective_pairing.
  - reflexivity.
  - lia.
Defined.

(** ** C2: where the corruption detector decides the result *)

(** C2, as stated, fails on the buffered-access path: the call returns 1
    without the detector having been called, although the detector flags
    the buffer the call produced. *)
Lemma C2_modern_path_skips_detector :
  fst run_modern_saturated = Val 1 /\
  existsb is_detector (trace (snd run_modern_saturated)) = false /\
  Detector.LooksLikeCorruptBGRA (dst (snd run_modern_saturated)) 4 1 8
  = Some true.
Proof. vm_compute. repeat split. Qed.

(** C2, amended: a call that returns 1 or -1 through the raw-offset
    fallback has run the detector on the final buffer and returns -1
    exactly when the detector flags it, 1 otherwise; a call that returns a
    non-Failure result without entering the fallback returns 1 and has not
    run the detector. *)
Theorem C2_verdict_decides_fallback_result
    fr fuel framePtr buffer bufferSize s r s' :
  trace s = [] ->
  CopyDeckLinkFrameBytes fr fuel framePtr buffer bufferSize s = (Val r, s') ->
  r <> 0 ->
  (In EvReadField280 (trace s') ->
   exists w h rb pf v,
     geometry fr = Some (w, h, rb, pf) /\
     Detector.LooksLikeCorruptBGRA (dst s') w h rb = Some v /\
     In (EvDetector (Some v)) (trace s') /\
     r = (if v then -1 else 1)) /\
  (~ In EvReadField280 (trace s') ->
   r = 1 /\ forall v, ~ In (EvDetector v) (trace s')).
Proof.
  intros Ht E Hr.
  pose proof (Copy_cases fr fuel framePtr buffer bufferSize s) as C.
  cbv zeta in C. rewrite E in C. cbn [fst snd] in C.
  destruct C as [(z & Ez & Hz & X & _) | (s1 & w & h & rb & pf & Hg & G & X & R)].
  - injection Ez as <-. destruct Hz as [-> | ->]; [congruence |].
    split.
    + intros H. destruct (extends_In _ _ _ _ X H) as [P | P].
      * destruct P.
      * rewrite Ht in P. destruct P.
    + intros _. split; [reflexivity |]. intros v H.
      destruct (extends_In _ _ _ _ X H) as [P | P].
      * destruct P.
      * rewrite Ht in P. destruct P.
  - rewrite RawOffsetFallback_run in R.
    destruct (plausible (field280 fr)); [| congruence].
    unfold bind in R.
    pose proof (RawCopy_only_writes fr fuel (field280 fr) bufferSize
                  (entered framePtr s1)) as W.
    destruct (RawCopy fr fuel (field280 fr) bufferSize (entered framePtr s1))
      as [[bc | |] s2]; try discriminate.
    cbn [snd] in W. rewrite Verdict_run in R.
    destruct (bc >? Z.quot bufferSize 2); [| congruence].
    destruct (Detector.LooksLikeCorruptBGRA (dst s2) w h rb) as [v |] eqn:D;
      [| discriminate].
    injection R as -> ->. cbn [dst trace]. split.
    + intros _. exists w, h, rb, pf, v. repeat split; auto. cbn. auto.
    + intros N. exfalso. apply N. cbn. right. right.
      eapply extends_keeps; [exact W |]. cbn. auto.
Qed.

(** C2, amended, at the 16-byte call on [frame_raw_only], which returns 1
    through the fallback. *)
Lemma C2_verdict_decides_fallback_result_witness :
  (In EvReadField280 (trace (snd run_raw_16)) ->
   exists w h rb pf v,
     geometry frame_raw_only = Some (w, h, rb, pf) /\
     Detector.LooksLikeCorruptBGRA (dst (snd run_raw_16)) w h rb = Some v /\
     In (EvDetector (Some v)) (trace (snd run_raw_16)) /\
     1 = (if v then -1 else 1)) /\
  (~ In EvReadField280 (trace (snd run_raw_16)) ->
   1 = 1 /\ forall v, ~ In (EvDetector v) (trace (snd run_raw_16))).
Proof.
  apply (C2_verdict_decides_fallback_result frame_raw_only 1 4096 20480 16
           s_init 1 (snd run_raw_16)).
  - reflexivity.
  - change (run_raw_16 = (Val 1, snd run_raw_16)).
    rewrite (surjective_pairing run_raw_16) at 1.
    f_equal; vm_compute; reflexivity.
  - discriminate.
Defined.

(** ** C3: StartAccess and EndAccess *)


(** C3 fails when the copy faults: StartAccess has returned success, the
    memcpy faults inside the __try, the handler runs, and EndAccess is
    never called during the call. *)
Theorem C3_copy_fault_skips_EndAccess :
  vb_StartAccess frame_modern_unreadable bmdBufferAccessRead = Some S_OK /\
  SUCCEEDED S_OK = true /\
  existsb is_start_access (trace (snd run_modern_unreadable)) = true /\
  existsb is_end_access (trace (snd run_modern_unreadable)) = false /\
  fst run_modern_unreadable = Val 0.
Proof. vm_compute. repeat split. Qed.

(** ** C4: StartAccess fails on a modern-only object *)

(** C4, as stated, fails: the v14_2_1 query fails and StartAccess fails,
    yet the call goes on to the raw-offset fallback, reads the word at
    offset 280 and returns 1. *)
Lemma C4_start_failure_reaches_fallback :
  QI frame_modern_start_fails IID_IDeckLinkVideoInputFrame_v14_2_1
  = (E_NOINTERFACE, nullptr) /\
  vb_StartAccess frame_modern_start_fails bmdBufferAccessRead = Some E_FAIL /\
  FAILED E_FAIL = true /\
  fst run_modern_start_fails = Val 1 /\
  In EvReadField280 (trace (snd run_modern_start_fails)).
Proof.
  split; [reflexivity |]. split; [reflexivity |]. split; [reflexivity |].
  split; [vm_compute; reflexivity |]. vm_compute. tauto.
Qed.

(** C4, amended: when the object has the buffered-access capability,
    StartAccess fails and the v14_2_1 query fails, the call is the
    raw-offset fallback run on the untouched buffer: the word at offset
    280 is read and the result is the fallback's. *)
Theorem C4_start_failure_runs_fallback
    fr fuel framePtr buffer bufferSize s w h rb pf hrSA :
  framePtr <> nullptr -> buffer <> nullptr -> 0 < bufferSize ->
  FAILED (fst (QI fr IID_IUnknown)) = false ->
  snd (QI fr IID_IUnknown) <> nullptr ->
  geometry fr = Some (w, h, rb, pf) ->
  SUCCEEDED (fst (QI fr IID_IDeckLinkVideoBuffer)) = true ->
  snd (QI fr IID_IDeckLinkVideoBuffer) <> nullptr ->
  vb_StartAccess fr bmdBufferAccessRead = Some hrSA -> SUCCEEDED hrSA = false ->
  SUCCEEDED (fst (QI fr IID_IDeckLinkVideoInputFrame_v14_2_1))
  && negb (snd (QI fr IID_IDeckLinkVideoInputFrame_v14_2_1) =? nullptr) = false ->
  exists s1,
    dst s1 = dst s /\
    extends (prefix_event 0) s s1 /\
    CopyDeckLinkFrameBytes fr fuel framePtr buffer bufferSize s
    = RawOffsetFallback fr fuel framePtr bufferSize w h rb s1 /\
    In EvReadField280
       (trace (snd (CopyDeckLinkFrameBytes fr fuel framePtr buffer bufferSize s))).
Proof.
  intros Hf Hb Hs Hu1 Hu2 Hg Hv1 Hv2 Hsa Hsa' Hl.
  assert (G : (framePtr =? nullptr) || (buffer =? nullptr) || (bufferSize <=? 0)
              = false).
  { apply Z.eqb_neq in Hf. apply Z.eqb_neq in Hb. rewrite Hf, Hb.
    apply Z.leb_gt. exact Hs. }
  assert (K : exists s1, dst s1 = dst s /\ extends (prefix_event 0) s s1 /\
              CopyDeckLinkFrameBytes fr fuel framePtr buffer bufferSize s
              = RawOffsetFallback fr fuel framePtr bufferSize w h rb s1).
  { unfold CopyDeckLinkFrameBytes, QueryInterface, when. rewrite G.
    destruct (QI fr IID_IUnknown) as [hrTest testUnk].
    destruct (QI fr IID_IDeckLinkVideoFrame) as [hrVF testVF].
    destruct (QI fr IID_IDeckLinkVideoInputFrame) as [hrVIF testVIF].
    destruct (QI fr IID_IDeckLinkVideoBuffer) as [hr videoBuffer].
    destruct (QI fr IID_IDeckLinkVideoInputFrame_v14_2_1)
      as [hrLegacy legacyFrame].
    cbn [fst snd] in *. apply Z.eqb_neq in Hu2. apply Z.eqb_neq in Hv2.
    step. rewrite Hu1, Hu2. cbn [orb]. step.
    rewrite when_Release_bind. step. rewrite when_Release_bind. step.
    match goal with |- context [bind (ReadGeometry fr) _ ?st] =>
      rewrite (bind_run _ _ _ _ _ (ReadGeometry_run fr st)) end.
    rewrite Hg. step. rewrite Hv1, Hv2. cbn [negb andb]. step.
    unfold VideoBufferPath, try_except, foreign. step. rewrite Hsa. step.
    rewrite Hsa'. step. cbn [Z.eqb]. step. rewrite Hl. step. cbn [Z.eqb].
    eexists. split; [| split; [| reflexivity]]; [reflexivity |].
    destruct (negb (testVF =? nullptr)), (negb (testVIF =? nullptr)); ext. }
  destruct K as (s1 & D & X & E). exists s1. repeat split; auto.
  rewrite E. apply RawOffsetFallback_reads_field.
Qed.

(** C4, amended, at the call on [frame_modern_start_fails]. *)
Lemma C4_start_failure_runs_fallback_witness :
  exists s1,
    dst s1 = dst s_init /\
    extends (prefix_event 0) s_init s1 /\
    CopyDeckLinkFrameBytes frame_modern_start_fails 1 4096 20480 8 s_init
    = RawOffsetFallback frame_modern_start_fails 1 4096 8 4 1 8 s1 /\
    In EvReadField280
       (trace (snd (CopyDeckLinkFrameBytes frame_modern_start_fails 1 4096
                      20480 8 s_init))).
Proof.
  apply (C4_start_failure_runs_fallback frame_modern_start_fails 1 4096 20480 8
           s_init 4 1 8 0 E_FAIL);
    try reflexivity; try discriminate; lia.
Defined.

(** ** C5: a chunk that faults in the chunked copy *)

(** C5: in the raw copy, when the copy of chunk [k] faults and the copy
    of every other chunk does not, the value of bytesCopied is bufferSize
    less the length of chunk [k], every byte outside chunk [k] is the
    source byte, and every byte of chunk [k] is the byte of the pattern
    0x80 0x10 0x80 0x10 at its position in the chunk. *)
Theorem C5_faulting_chunk_is_blanked fr fuel src bufferSize k s :
  0 < bufferSize <= 2147418112 ->
  0 <= k /\ chunkSize * k < bufferSize ->
  (Z.to_nat (bufferSize / chunkSize) + 2 <= fuel)%nat ->
  chunk_ok fr src bufferSize (chunkSize * k) = false ->
  (forall j, 0 <= j -> chunkSize * j < bufferSize -> j <> k ->
             chunk_ok fr src bufferSize (chunkSize * j) = true) ->
  exists s',
    RawCopy fr fuel src bufferSize s
    = (Val (bufferSize - chunk_len bufferSize (chunkSize * k)), s') /\
    (forall o, 0 <= o < bufferSize -> in_chunk bufferSize k o = false ->
               dst s' o = load (memory fr) (src + o)) /\
    (forall o, in_chunk bufferSize k o = true ->
               dst s' o = UYVY_black (o - chunkSize * k)).
Proof.
  intros HB Hk Hf Hbad Hgood.
  destruct (RawCopy_one_fault fr src bufferSize k HB Hk Hbad Hgood fuel s Hf)
    as (s' & E & D).
  exists s'. split; [exact E |]. split.
  - intros o Ho Hn. rewrite D by exact Ho. rewrite Hn. reflexivity.
  - intros o Hi. rewrite D.
    + rewrite Hi. reflexivity.
    + unfold in_chunk in Hi. apply andb_true_iff in Hi. destruct Hi as [H1 H2].
      apply Z.leb_le in H1. apply Z.ltb_lt in H2.
      unfold chunk_len, chunkSize in *. lia.
Qed.

(** C5 at a 131072-byte copy whose second chunk cannot be read. *)
Lemma C5_faulting_chunk_is_blanked_witness :
  exists s',
    RawCopy frame_raw_half 4 131072 131072 s_init
    = (Val (131072 - chunk_len 131072 (chunkSize * 1)), s') /\
    (forall o, 0 <= o < 131072 -> in_chunk 131072 1 o = false ->
               dst s' o = load (memory frame_raw_half) (131072 + o)) /\
    (forall o, in_chunk 131072 1 o = true ->
               dst s' o = UYVY_black (o - chunkSize * 1)).
Proof.
  apply (C5_faulting_chunk_is_blanked frame_raw_half 4 131072 131072 1 s_init).
  - lia.
  - unfold chunkSize. lia.
  - vm_compute. lia.
  - vm_compute. reflexivity.
  - intros j H0 H1 H2. unfold chunkSize in H1.
    assert (E : j = 0) by lia. rewrite E. vm_compute. reflexivity.
Defined.

(** ** C6: a null or implausible pointer at offset 280 *)

(** C6: when the call enters the raw-offset fallback and the word at
    offset 280 is null or outside 0x10000 .. 0x7FFF00000000, the call
    returns 0 and the fallback has stored nothing: after entering, it only
    releases the reference it took, and the buffer is as the fallback
    found it. *)
Theorem C6_implausible_pointer_fails_untouched
    fr fuel framePtr buffer bufferSize s out s' :
  trace s = [] ->
  CopyDeckLinkFrameBytes fr fuel framePtr buffer bufferSize s = (out, s') ->
  In EvReadField280 (trace s') ->
  field280 fr = nullptr \/ field280 fr < 65536
  \/ 140733193388032 <= field280 fr ->
  out = Val 0 /\
  exists s1,
    extends (prefix_event (accessor_bound fr bufferSize)) s s1 /\
    trace s' = EvRelease framePtr :: EvReadField280 :: EvAddRef framePtr
               :: trace s1 /\
    dst s' = dst s1.
Proof.
  intros Ht E Hin Hp.
  pose proof (Copy_cases fr fuel framePtr buffer bufferSize s) as C.
  cbv zeta in C. rewrite E in C. cbn [fst snd] in C.
  destruct C as [(z & _ & _ & X & _) | (s1 & w & h & rb & pf & Hg & G & X & R)].
  - exfalso. destruct (extends_In _ _ _ _ X Hin) as [P | P].
    + exact P.
    + rewrite Ht in P. exact P.
  - rewrite RawOffsetFallback_run in R.
    assert (Hpl : plausible (field280 fr) = false).
    { unfold plausible, nullptr in *.
      destruct (Z.eqb_spec (field280 fr) 0); [reflexivity |].
      destruct (Z.ltb_spec (field280 fr) 65536); [reflexivity |].
      destruct (Z.geb_spec (field280 fr) 140733193388032); [reflexivity |].
      lia. }
    rewrite Hpl in R. injection R as -> ->.
    split; [reflexivity |]. exists s1. repeat split. exact X.
Qed.

(** C6 at the call on [frame_modern_unreadable], whose word at offset 280
    is null. *)
Lemma C6_implausible_pointer_fails_untouched_witness :
  fst run_modern_unreadable = Val 0 /\
  exists s1,
    extends (prefix_event (accessor_bound frame_modern_unreadable 8)) s_init s1 /\
    trace (snd run_modern_unreadable)
    = EvRelease 4096 :: EvReadField280 :: EvAddRef 4096 :: trace s1 /\
    dst (snd run_modern_unreadable) = dst s1.
Proof.
  apply (C6_implausible_pointer_fails_untouched frame_modern_unreadable 1
           4096 20480 8 s_init).
  - reflexivity.
  - apply surjective_pairing.
  - vm_compute. tauto.
  - left. reflexivity.
Defined.

(** ** C7: how much must have been copied *)





(** ** C8: faults inside GetDeckLinkFrameInfo *)




(** ** C9: the temporary reference of the fallback *)





(** ** C10: accesses to the destination buffer *)

(** C10 fails on the code.  With bufferSize = 6 and a chunk that faults,
    the black fill stores 8 bytes: offsets 6 and 7, past the end of the
    buffer, are overwritten.  With bufferSize = 8 and a 1920x1080 geometry
    the detector is called and its second sample reads at offset 503376.
    With a height of 0 the detector's remainder faults and the fault leaves
    the call. *)
Theorem C10_accesses_leave_the_buffer :
  (fst run_raw_unreadable_6 = Val 0 /\
   In (EvWrite 6 1) (trace (snd run_raw_unreadable_6)) /\
   In (EvWrite 7 1) (trace (snd run_raw_unreadable_6)) /\
   dst s_init 6 = 0 /\ dst (snd run_raw_unreadable_6) 6 = 128 /\
   dst s_init 7 = 0 /\ dst (snd run_raw_unreadable_6) 7 = 16) /\
  (existsb is_detector (trace (snd run_raw_hd_8)) = true /\
   Detector.sample_offset 1920 1080 3840 1 = Some 503376) /\
  fst run_raw_flat_8 = Exc.
Proof.
  split; [| split].
  - split; [vm_compute; reflexivity |].
    split; [vm_compute; tauto |]. split; [vm_compute; tauto |].
    vm_compute. repeat split.
  - vm_compute. split; reflexivity.
  - vm_compute. reflexivity.
Qed.

(** * Further properties of the code *)

(** ** Calls that are rejected before any path is tried *)

(** A call with a null handle, a null buffer or a capacity that is not
    positive, a handle whose IUnknown query fails or stores no pointer, or
    a frame one of whose four geometry accessors faults, returns 0; the
    buffer is untouched and nothing but capability queries and releases of
    their results has happened.  Lines 143-211. *)
Theorem rejected_call_returns_0_untouched
    fr fuel framePtr buffer bufferSize s :
  framePtr = nullptr \/ buffer = nullptr \/ bufferSize <= 0
  \/ FAILED (fst (QI fr IID_IUnknown)) = true
  \/ snd (QI fr IID_IUnknown) = nullptr
  \/ geometry fr = None ->
  fst (CopyDeckLinkFrameBytes fr fuel framePtr buffer bufferSize s) = Val 0 /\
  dst (snd (CopyDeckLinkFrameBytes fr fuel framePtr buffer bufferSize s))
  = dst s /\
  extends query_or_release s
    (snd (CopyDeckLinkFrameBytes fr fuel framePtr buffer bufferSize s)).
Proof.
  intros H. unfold CopyDeckLinkFrameBytes, QueryInterface, when.
  destruct ((framePtr =? nullptr) || (buffer =? nullptr) || (bufferSize <=? 0))
    eqn:G; [step; repeat split; ext |].
  apply orb_false_iff in G. destruct G as [G G3].
  apply orb_false_iff in G. destruct G as [G1 G2].
  apply Z.eqb_neq in G1. apply Z.eqb_neq in G2. apply Z.leb_gt in G3.
  destruct (QI fr IID_IUnknown) as [hrTest testUnk].
  destruct (QI fr IID_IDeckLinkVideoFrame) as [hrVF testVF].
  destruct (QI fr IID_IDeckLinkVideoInputFrame) as [hrVIF testVIF].
  cbn [fst snd] in H. step.
  destruct (FAILED hrTest || (testUnk =? nullptr)) eqn:F;
    [step; repeat split; ext |].
  apply orb_false_iff in F. destruct F as [F1 F2]. apply Z.eqb_neq in F2.
  step. rewrite when_Release_bind. step. rewrite when_Release_bind. step.
  match goal with |- context [bind (ReadGeometry fr) _ ?st] =>
    rewrite (bind_run _ _ _ _ _ (ReadGeometry_run fr st)) end.
  destruct (geometry fr) as [[[[w h] rb] pf] |].
  - exfalso. destruct H as [H | [H | [H | [H | [H | H]]]]];
      try contradiction; try congruence; lia.
  - step. repeat split.
    destruct (negb (testVF =? nullptr)), (negb (testVIF =? nullptr)); ext.
Qed.

(** The rejection, at a call with a capacity of 0. *)
Lemma rejected_call_returns_0_untouched_witness :
  fst (CopyDeckLinkFrameBytes frame_raw_only 1 4096 20480 0 s_init) = Val 0 /\
  dst (snd (CopyDeckLinkFrameBytes frame_raw_only 1 4096 20480 0 s_init))
  = dst s_init /\
  extends query_or_release s_init
    (snd (CopyDeckLinkFrameBytes frame_raw_only 1 4096 20480 0 s_init)).
Proof.
  apply (rejected_call_returns_0_untouched frame_raw_only 1 4096 20480 0 s_init).
  right. right. left. lia.
Defined.

(** ** The three results *)

(** Whenever the call returns, the result is 1, 0 or -1; it is -1 only
    when the raw-offset fallback was entered and the detector, called on
    the final buffer, flagged it.  Lines 141-569. *)
Theorem result_is_tristate fr fuel framePtr buffer bufferSize s r s' :
  trace s = [] ->
  CopyDeckLinkFrameBytes fr fuel framePtr buffer bufferSize s = (Val r, s') ->
  (r = 1 \/ r = 0 \/ r = -1) /\
  (r = -1 ->
   In EvReadField280 (trace s') /\ In (EvDetector (Some true)) (trace s') /\
   exists w h rb pf,
     geometry fr = Some (w, h, rb, pf) /\
     Detector.LooksLikeCorruptBGRA (dst s') w h rb = Some true).
Proof.
  intros Ht E.
  pose proof (Copy_cases fr fuel framePtr buffer bufferSize s) as C.
  cbv zeta in C. rewrite E in C. cbn [fst snd] in C.
  destruct C as [(z & Ez & Hz & X & _) | (s1 & w & h & rb & pf & Hg & G & X & R)].
  - injection Ez as <-. split; [tauto |]. intros ->. lia.
  - rewrite RawOffsetFallback_run in R.
    destruct (plausible (field280 fr)).
    + unfold bind in R.
      pose proof (RawCopy_only_writes fr fuel (field280 fr) bufferSize
                    (entered framePtr s1)) as W.
      destruct (RawCopy fr fuel (field280 fr) bufferSize (entered framePtr s1))
        as [[bc | |] s2]; try discriminate.
      cbn [snd] in W. rewrite Verdict_run in R.
      assert (K : In EvReadField280 (trace s2))
        by (eapply extends_keeps; [exact W |]; cbn; auto).
      destruct (bc >? Z.quot bufferSize 2).
      * destruct (Detector.LooksLikeCorruptBGRA (dst s2) w h rb) as [v |] eqn:D;
          [| discriminate].
        injection R as -> ->. cbn [dst trace]. split.
        -- destruct v; tauto.
        -- intros Hv. destruct v; [| discriminate].
           repeat split; cbn; auto. exists w, h, rb, pf. auto.
      * injection R as -> ->. split; [tauto |]. discriminate.
    + injection R as -> ->. split; [tauto |]. discriminate.
Qed.

(** The three results, at a fallback copy of saturated bytes, which
    returns -1. *)
Lemma result_is_tristate_witness :
  (-1 = 1 \/ -1 = 0 \/ -1 = -1) /\
  (-1 = -1 ->
   In EvReadField280 (trace (snd run_raw_saturated)) /\
   In (EvDetector (Some true)) (trace (snd run_raw_saturated)) /\
   exists w h rb pf,
     geometry frame_raw_saturated = Some (w, h, rb, pf) /\
     Detector.LooksLikeCorruptBGRA (dst (snd run_raw_saturated)) w h rb
     = Some true).
Proof.
  unfold run_raw_saturated.
  apply (result_is_tristate frame_raw_saturated 1 4096 20480 8 s_init).
  - reflexivity.
  - etransitivity; [apply surjective_pairing |].
    apply (f_equal2 pair); [vm_compute; reflexivity | reflexivity].
Defined.

(** ** The detector: faults and the offsets it reads *)

Lemma sample_offset_none w h rb i :
  Detector.sample_offset w h rb i = None
  <-> h = 0 \/ wrap32 (wrap32 (w * 2) - 4) = 0.
Proof.
  unfold Detector.sample_offset.
  destruct (Z.eqb_spec h 0) as [-> | Nh].
  - split; [auto | reflexivity].
  - destruct (Z.eqb_spec (wrap32 (wrap32 (w * 2) - 4)) 0) as [E | Nd].
    + split; [auto | reflexivity].
    + split; [discriminate | intros [H | H]; contradiction].
Qed.

Lemma sample_loop_some p w h rb :
  h <> 0 -> wrap32 (wrap32 (w * 2) - 4) <> 0 ->
  forall n i a, exists a', Detector.sample_loop n p w h rb i a = Some a'.
Proof.
  intros Nh Nd. induction n as [| n IH]; intros i a; cbn [Detector.sample_loop].
  - eauto.
  - destruct (Detector.sample_offset w h rb i) eqn:E.
    + apply IH.
    + apply sample_offset_none in E. tauto.
Qed.


Lemma land_lnot_3 (x : Z) : Z.land x (Z.lnot 3) = 4 * (x / 4).
Proof.
  rewrite <- Z.ldiff_land. change 3 with (Z.ones 2).
  rewrite Z.ldiff_ones_r by lia.
  rewrite Z.shiftr_div_pow2, Z.shiftl_mul_pow2 by lia.
  change (2 ^ 2) with 4. lia.
Qed.

(** For a geometry with a positive height, a width of at least 3, rows of
    at least 2*width bytes and rowBytes*height within int, sample [i]
    reads the four bytes at [y*rowBytes + x] with [y] a row of the frame
    and [x] a multiple of 4 such that the four bytes lie in the first
    2*width bytes of the row: every read is below rowBytes*height.
    Lines 90-100. *)
Theorem sample_offset_within_frame w h rb i :
  0 < h -> 3 <= w -> 2 * w <= rb -> rb * h <= 2147483647 ->
  0 <= i < Detector.samples ->
  exists y x,
    Detector.sample_offset w h rb i = Some (y * rb + x) /\
    0 <= y < h /\ 0 <= x /\ x mod 4 = 0 /\ x + 3 < 2 * w /\
    0 <= y * rb + x /\ y * rb + x + 3 < rb * h.
Proof.
  intros Hh Hw Hrb Hov Hi. unfold Detector.samples in Hi.
  assert (Hrb' : rb <= rb * h) by nia.
  unfold Detector.sample_offset.
  destruct (Z.eqb_spec h 0); [lia |].
  rewrite (wrap32_small (w * 2)) by (unfold int32; lia).
  rewrite (wrap32_small (w * 2 - 4)) by (unfold int32; lia).
  destruct (Z.eqb_spec (w * 2 - 4) 0); [lia |].
  rewrite land_lnot_3.
  pose proof (Z.rem_bound_pos (i * 131) h ltac:(lia) Hh) as By.
  pose proof (Z.rem_bound_pos (i * 337) (w * 2 - 4) ltac:(lia) ltac:(lia)) as Bx.
  set (y := Z.rem (i * 131) h) in *.
  set (x0 := Z.rem (i * 337) (w * 2 - 4)) in *.
  pose proof (Z.div_mod x0 4 ltac:(lia)) as DM.
  pose proof (Z.mod_pos_bound x0 4 ltac:(lia)) as MB.
  assert (Hy : 0 <= y * rb <= rb * h - rb) by nia.
  rewrite (wrap32_small (y * rb)) by (unfold int32; lia).
  rewrite wrap32_small by (unfold int32; lia).
  exists y, (4 * (x0 / 4)). split; [reflexivity |].
  repeat split; try lia.
  rewrite Z.mul_comm. apply Z.mod_mul. lia.
Qed.

(** The offsets of sample 1 of a 1920x1080 frame of 3840 bytes per row. *)
Lemma sample_offset_within_frame_witness :
  exists y x,
    Detector.sample_offset 1920 1080 3840 1 = Some (y * 3840 + x) /\
    0 <= y < 1080 /\ 0 <= x /\ x mod 4 = 0 /\ x + 3 < 2 * 1920 /\
    0 <= y * 3840 + x /\ y * 3840 + x + 3 < 3840 * 1080.
Proof.
  apply (sample_offset_within_frame 1920 1080 3840 1);
    unfold Detector.samples; lia.
Defined.

(** ** The black fill and the raw copy *)

(** The black fill of a chunk of [n] bytes at [pos] completes, stores the
    pattern 0x80 0x10 0x80 0x10 over the bytes from [pos] up to [pos] plus
    [n] rounded up to a multiple of 4, and changes no other byte: it runs
    up to 3 bytes past the chunk when [n] is not a multiple of 4, and
    stays inside it when [n] is.  Lines 413-420. *)
Theorem FillBlack_footprint pos n s :
  n <= 2147483643 ->
  fst (FillBlack pos n s) = Val tt /\
  (forall o, dst (snd (FillBlack pos n s)) o =
     if (pos <=? o) && (o <? pos + up4 n)
     then UYVY_black (o - pos) else dst s o) /\
  n <= up4 n <= n + 3 /\ (n mod 4 = 0 -> up4 n = n).
Proof.
  intros Hn. destruct (FillBlack_run pos n s Hn) as (s' & E & D).
  rewrite E. cbn [fst snd]. split; [reflexivity |]. split; [exact D |].
  split; [apply up4_bounds | apply up4_aligned].
Qed.

(** The fill of a 6-byte chunk at offset 0. *)
Lemma FillBlack_footprint_witness :
  fst (FillBlack 0 6 s_init) = Val tt /\
  (forall o, dst (snd (FillBlack 0 6 s_init)) o =
     if (0 <=? o) && (o <? 0 + up4 6)
     then UYVY_black (o - 0) else dst s_init o) /\
  6 <= up4 6 <= 6 + 3 /\ (6 mod 4 = 0 -> up4 6 = 6).
Proof. apply (FillBlack_footprint 0 6 s_init). lia. Defined.

Lemma readable_prefix_all m n : forall a,
  readable_prefix m a n = Z.of_nat n ->
  forall i, 0 <= i < Z.of_nat n -> m (a + i) <> None.
Proof.
  induction n as [| n IH]; intros a H i Hi; cbn [readable_prefix] in H.
  - lia.
  - pose proof (readable_prefix_bounds m n (a + 1)) as B.
    destruct (m a) eqn:E; [| lia].
    destruct (Z.eq_dec i 0) as [-> | N].
    + rewrite Z.add_0_r, E. discriminate.
    + replace (a + i) with (a + 1 + (i - 1)) by lia. apply IH; lia.
Qed.

Lemma chunk_index (o j : Z) :
  chunkSize * j <= o < chunkSize * j + chunkSize -> o / chunkSize = j.
Proof.
  intros H. symmetry. unfold chunkSize in *.
  apply (Z.div_unique o 65536 j (o - 65536 * j)); lia.
Qed.

(** The chunk loop from chunk [j] on, whatever chunks fault. *)
Lemma chunk_loop_general fr src bufferSize :
  0 < bufferSize <= 2147418112 ->
  forall (n fuel : nat) (j acc : Z) (s : State),
    0 <= j -> bufferSize <= chunkSize * (j + Z.of_nat n) -> (n < fuel)%nat ->
    0 <= acc <= chunkSize * j ->
    exists bc s',
      for_acc fuel (fun pos => pos <? bufferSize)
        (fun pos => wrap32 (pos + chunkSize)) (CopyChunk fr src bufferSize)
        (chunkSize * j) acc s = (Val bc, s') /\
      acc <= bc <= acc + Z.max 0 (bufferSize - chunkSize * j) /\
      (forall o, o < chunkSize * j -> dst s' o = dst s o) /\
      (forall o, chunkSize * j <= o < bufferSize ->
         dst s' o =
         if chunk_ok fr src bufferSize (chunkSize * (o / chunkSize))
         then load (memory fr) (src + o)
         else UYVY_black (o - chunkSize * (o / chunkSize))).
Proof.
  intros HB. induction n as [| n IH]; intros fuel j acc s Hj Hn Hf Ha;
    (destruct fuel as [| fuel]; [lia |]); cbn [for_acc].
  - destruct (Z.ltb_spec (chunkSize * j) bufferSize); [lia |].
    exists acc, s. unfold ret.
    repeat split; try reflexivity; intros; lia.
  - destruct (Z.ltb_spec (chunkSize * j) bufferSize) as [C | C].
    + destruct (CopyChunk_run fr src bufferSize (chunkSize * j) acc s HB)
        as (s1 & E1 & F1 & D1); [lia | lia |].
      unfold bind at 1. rewrite E1.
      rewrite wrap32_small by (unfold int32, chunkSize in *; lia).
      replace (chunkSize * j + chunkSize) with (chunkSize * (j + 1))
        by (unfold chunkSize; lia).
      assert (L : 0 < chunk_len bufferSize (chunkSize * j) <= chunkSize
                  /\ chunkSize * j + chunk_len bufferSize (chunkSize * j)
                     <= bufferSize)
        by (unfold chunk_len, chunkSize in *; lia).
      match goal with |- context [for_acc fuel _ _ _ _ ?a s1] =>
        destruct (IH fuel (j + 1) a s1) as (bc & s' & E & B & F & D) end;
        [lia | lia | lia | |].
      { destruct (chunk_ok fr src bufferSize (chunkSize * j));
          unfold chunkSize in *; lia. }
      exists bc, s'. split; [exact E |]. split; [| split].
      * destruct (chunk_ok fr src bufferSize (chunkSize * j));
          unfold chunkSize in *; lia.
      * intros o Ho. rewrite F by (unfold chunkSize in *; lia). apply F1, Ho.
      * intros o Ho.
        destruct (Z.lt_ge_cases o (chunkSize * (j + 1))) as [Lt | Ge];
          [| apply D; lia].
        rewrite F by exact Lt.
        rewrite D1 by (unfold chunk_len, chunkSize in *; lia).
        rewrite (chunk_index o j) by (unfold chunkSize in *; lia).
        reflexivity.
    + exists acc, s. unfold ret.
      repeat split; try reflexivity; intros; lia.
Qed.

(** The raw copy always completes, for any pattern of unreadable source
    bytes: no fault leaves it, bytesCopied is between 0 and bufferSize, and
    every byte of the buffer is defined afterwards, the source byte when
    the 64 KiB chunk it lies in could be read and the black pattern when
    that chunk faulted; when every source byte can be read the whole
    buffer is the source and bytesCopied is bufferSize.  Lines 393-423. *)
Theorem RawCopy_always_completes fr fuel src bufferSize s :
  0 < bufferSize <= 2147418112 ->
  (Z.to_nat (bufferSize / chunkSize) + 2 <= fuel)%nat ->
  exists bytesCopied s',
    RawCopy fr fuel src bufferSize s = (Val bytesCopied, s') /\
    0 <= bytesCopied <= bufferSize /\
    (forall o, 0 <= o < bufferSize ->
       dst s' o =
       if chunk_ok fr src bufferSize (chunkSize * (o / chunkSize))
       then load (memory fr) (src + o)
       else UYVY_black (o - chunkSize * (o / chunkSize))) /\
    ((forall a, 0 <= a < bufferSize -> memory fr (src + a) <> None) ->
     bytesCopied = bufferSize /\
     forall o, 0 <= o < bufferSize -> dst s' o = load (memory fr) (src + o)).
Proof.
  intros HB Hf. unfold RawCopy, try_except, bind.
  destruct (memcpy_run fr 0 src bufferSize s) as [B [[E Ek] | [E Ek]]];
    rewrite to_size_t_small in * by lia; rewrite E.
  - cbn [ret]. do 2 eexists. split; [reflexivity |].
    split; [lia |]. cbn [dst]. unfold blit.
    assert (D : forall o, 0 <= o < bufferSize ->
                (if (0 <=? o) && (o <? 0 + readable_prefix (memory fr) src
                                              (Z.to_nat bufferSize))
                 then load (memory fr) (src + (o - 0))
                 else dst s o) = load (memory fr) (src + o)).
    { intros o Ho. rewrite Ek.
      destruct (Z.leb_spec 0 o), (Z.ltb_spec o (0 + bufferSize)); try lia.
      cbn [andb]. f_equal. lia. }
    split; [| split; [reflexivity | exact D]].
    intros o Ho. rewrite (D o Ho).
    assert (Hq : 0 <= o / chunkSize
                 /\ chunkSize * (o / chunkSize) <= o
                    < chunkSize * (o / chunkSize) + chunkSize).
    { pose proof (Z.div_mod o chunkSize ltac:(unfold chunkSize; lia)).
      pose proof (Z.mod_pos_bound o chunkSize ltac:(unfold chunkSize; lia)).
      split; [apply Z.div_pos; unfold chunkSize; lia | lia]. }
    unfold chunk_ok.
    assert (L : 0 < chunk_len bufferSize (chunkSize * (o / chunkSize))
                /\ chunkSize * (o / chunkSize)
                   + chunk_len bufferSize (chunkSize * (o / chunkSize))
                   <= bufferSize)
      by (unfold chunk_len, chunkSize in *; lia).
    rewrite readable_prefix_full; [rewrite Z2Nat.id by lia; rewrite Z.eqb_refl;
                                   reflexivity |].
    intros i Hi. rewrite Z2Nat.id in Hi by lia.
    replace (src + chunkSize * (o / chunkSize) + i)
      with (src + (chunkSize * (o / chunkSize) + i)) by lia.
    apply (readable_prefix_all (memory fr) (Z.to_nat bufferSize) src).
    + rewrite Z2Nat.id by lia. exact Ek.
    + rewrite Z2Nat.id by lia. unfold chunk_len, chunkSize in *. lia.
  - unfold ChunkedCopy.
    pose proof (Z.div_mod bufferSize chunkSize ltac:(unfold chunkSize; lia)) as DM.
    pose proof (Z.mod_pos_bound bufferSize chunkSize ltac:(unfold chunkSize; lia)).
    assert (0 <= bufferSize / chunkSize)
      by (apply Z.div_pos; unfold chunkSize; lia).
    match goal with |- context [for_acc fuel _ _ _ 0 0 ?s1] =>
      destruct (chunk_loop_general fr src bufferSize HB
                  (S (Z.to_nat (bufferSize / chunkSize))) fuel 0 0 s1)
        as (bc & s' & E' & Bd & _ & D) end; try lia.
    + rewrite Nat2Z.inj_succ, Z2Nat.id by lia. lia.
    + replace (chunkSize * 0) with 0 in * by lia.
      exists bc, s'. split; [exact E' |]. split; [lia |].
      split; [exact D |]. intros Hall. exfalso.
      rewrite readable_prefix_full in Ek; [rewrite Z2Nat.id in Ek by lia; lia |].
      intros i Hi. rewrite Z2Nat.id in Hi by lia. apply Hall. exact Hi.
Qed.

(** The raw copy of 131072 bytes whose second chunk cannot be read. *)
Lemma RawCopy_always_completes_witness :
  exists bytesCopied s',
    RawCopy frame_raw_half 4 131072 131072 s_init = (Val bytesCopied, s') /\
    0 <= bytesCopied <= 131072 /\
    (forall o, 0 <= o < 131072 ->
       dst s' o =
       if chunk_ok frame_raw_half 131072 131072 (chunkSize * (o / chunkSize))
       then load (memory frame_raw_half) (131072 + o)
       else UYVY_black (o - chunkSize * (o / chunkSize))) /\
    ((forall a, 0 <= a < 131072 ->
                memory frame_raw_half (131072 + a) <> None) ->
     bytesCopied = 131072 /\
     forall o, 0 <= o < 131072 ->
               dst s' o = load (memory frame_raw_half) (131072 + o)).
Proof.
  apply (RawCopy_always_completes frame_raw_half 4 131072 131072 s_init).
  - lia.
  - vm_compute. lia.
Defined.

(** ** The paths that succeed *)

Lemma memcpy_ok fr doff src n s :
  (forall i, 0 <= i < to_size_t n -> memory fr (src + i) <> None) ->
  memcpy fr doff src n s
  = (Val tt, mkState (blit (dst s) doff (memory fr) src (to_size_t n))
                     (EvWrite doff (to_size_t n) :: trace s)).
Proof.
  intros H. pose proof (to_size_t_range n) as R. unfold memcpy.
  rewrite readable_prefix_full by (rewrite Z2Nat.id by lia; exact H).
  rewrite Z2Nat.id by lia. rewrite Z.eqb_refl. reflexivity.
Qed.

Lemma bind_bind_run {S A B C} (c : M S A) (k1 : A -> M S B)
    (k2 : B -> M S C) s a s1 :
  c s = (Val a, s1) -> bind (bind c k1) k2 s = bind (k1 a) k2 s1.
Proof. intros E. unfold bind. rewrite E. reflexivity. Qed.

(** The call up to the reading of the geometry, for a valid handle. *)
Lemma Copy_from_geometry fr fuel framePtr buffer bufferSize s w h rb pf :
  framePtr <> nullptr -> buffer <> nullptr -> 0 < bufferSize ->
  FAILED (fst (QI fr IID_IUnknown)) = false ->
  snd (QI fr IID_IUnknown) <> nullptr ->
  geometry fr = Some (w, h, rb, pf) ->
  exists s0,
    dst s0 = dst s /\ extends validation_event s s0 /\
    CopyDeckLinkFrameBytes fr fuel framePtr buffer bufferSize s
    = AfterGeometry fr fuel framePtr bufferSize w h rb s0.
Proof.
  intros Hf Hb Hs Hu1 Hu2 Hg.
  assert (G : (framePtr =? nullptr) || (buffer =? nullptr) || (bufferSize <=? 0)
              = false).
  { apply Z.eqb_neq in Hf. apply Z.eqb_neq in Hb. rewrite Hf, Hb.
    apply Z.leb_gt. exact Hs. }
  unfold CopyDeckLinkFrameBytes, AfterGeometry, QueryInterface, when. rewrite G.
  destruct (QI fr IID_IUnknown) as [hrTest testUnk].
  destruct (QI fr IID_IDeckLinkVideoFrame) as [hrVF testVF].
  destruct (QI fr IID_IDeckLinkVideoInputFrame) as [hrVIF testVIF].
  cbn [fst snd] in *. apply Z.eqb_neq in Hu2.
  step. rewrite Hu1, Hu2. cbn [orb]. step.
  rewrite when_Release_bind. step. rewrite when_Release_bind. step.
  match goal with |- context [bind (ReadGeometry fr) _ ?st] =>
    rewrite (bind_run _ _ _ _ _ (ReadGeometry_run fr st)) end.
  rewrite Hg.
  eexists. split; [| split; [| reflexivity]]; [reflexivity |].
  destruct (negb (testVF =? nullptr)), (negb (testVIF =? nullptr)); ext.
Qed.


Lemma blit_from_0 d m src n o :
  blit d 0 m src n o = if (0 <=? o) && (o <? n) then load m (src + o) else d o.
Proof.
  unfold blit. rewrite Z.add_0_l, Z.sub_0_r. reflexivity.
Qed.



(** The buffered-access path when StartAccess fails or faults: nothing
    else is called and nothing is stored. *)
Lemma VideoBufferPath_start_fails fr bufferSize h rb s :
  vb_StartAccess fr bmdBufferAccessRead = None
  \/ (exists hr, vb_StartAccess fr bmdBufferAccessRead = Some hr
                 /\ SUCCEEDED hr = false) ->
  VideoBufferPath fr bufferSize h rb s
  = (Val 0, mkState (dst s) (EvStartAccess bmdBufferAccessRead :: trace s)).
Proof.
  intros [H | (hr & H & F)];
    unfold VideoBufferPath, try_except, foreign; step; rewrite H; step;
    [| rewrite F]; reflexivity.
Qed.

Lemma LegacyPath_success fr bufferSize h rb s hrG srcPtr :
  legacy_GetBytes fr = Some (hrG, srcPtr) -> SUCCEEDED hrG = true ->
  srcPtr <> nullptr ->
  (forall i, 0 <= i < to_size_t (copySize bufferSize rb h) ->
             memory fr (srcPtr + i) <> None) ->
  LegacyPath fr bufferSize h rb s
  = (Val 1,
     mkState (blit (dst s) 0 (memory fr) srcPtr
                   (to_size_t (copySize bufferSize rb h)))
             (EvWrite 0 (to_size_t (copySize bufferSize rb h))
              :: EvLegacyGetBytes :: trace s)).
Proof.
  intros H1 H2 H3 H4. apply Z.eqb_neq in H3.
  unfold LegacyPath, try_except, foreign. step. rewrite H1. step.
  rewrite H2, H3. cbn [negb andb].
  rewrite (bind_run _ _ _ _ _ (memcpy_ok fr 0 srcPtr _ _ H4)). reflexivity.
Qed.

(** When the buffered-access path gives no data because the capability is
    absent or StartAccess fails, and the object has the v14_2_1 capability
    whose GetBytes succeeds with a non-null pointer to
    min(bufferSize, rowBytes*height) readable bytes, the call returns 1,
    the first min(bufferSize, rowBytes*height) bytes of the buffer are the
    source bytes, every other byte is as before, and the fallback is not
    entered.  Lines 296-353. *)
Theorem legacy_path_copies_frame
    fr fuel framePtr buffer bufferSize s w h rb pf hrG srcPtr :
  framePtr <> nullptr -> buffer <> nullptr -> 0 < bufferSize ->
  FAILED (fst (QI fr IID_IUnknown)) = false ->
  snd (QI fr IID_IUnknown) <> nullptr ->
  geometry fr = Some (w, h, rb, pf) ->
  capable fr IID_IDeckLinkVideoBuffer = false
  \/ (exists hr, vb_StartAccess fr bmdBufferAccessRead = Some hr
                 /\ SUCCEEDED hr = false) ->
  capable fr IID_IDeckLinkVideoInputFrame_v14_2_1 = true ->
  legacy_GetBytes fr = Some (hrG, srcPtr) -> SUCCEEDED hrG = true ->
  srcPtr <> nullptr ->
  0 <= wrap32 (rb * h) ->
  (forall i, 0 <= i < Z.min bufferSize (wrap32 (rb * h)) ->
             memory fr (srcPtr + i) <> None) ->
  fst (CopyDeckLinkFrameBytes fr fuel framePtr buffer bufferSize s) = Val 1 /\
  (forall o,
     dst (snd (CopyDeckLinkFrameBytes fr fuel framePtr buffer bufferSize s)) o
     = if (0 <=? o) && (o <? Z.min bufferSize (wrap32 (rb * h)))
       then load (memory fr) (srcPtr + o) else dst s o) /\
  extends before_fallback s
    (snd (CopyDeckLinkFrameBytes fr fuel framePtr buffer bufferSize s)).
Proof.
  intros Hf Hb Hs Hu1 Hu2 Hg Hm Hc H1 H2 H3 Hp Hr.
  destruct (Copy_from_geometry fr fuel framePtr buffer bufferSize s w h rb pf
              Hf Hb Hs Hu1 Hu2 Hg) as (s0 & D0 & X0 & ->).
  rewrite <- (copySize_min bufferSize rb h Hs Hp) in *.
  assert (X0' : extends before_fallback s s0).
  { eapply extends_mono; [| exact X0]. intros [[] | | | | | | | | |]; cbn; auto. }
  unfold AfterGeometry, QueryInterface. unfold capable in *.
  destruct (QI fr IID_IDeckLinkVideoBuffer) as [hr videoBuffer].
  destruct (QI fr IID_IDeckLinkVideoInputFrame_v14_2_1)
    as [hrLegacy legacyFrame].
  cbn [fst snd] in *. step.
  destruct (SUCCEEDED hr && negb (videoBuffer =? nullptr)).
  - destruct Hm as [Hm | Hm]; [discriminate |].
    rewrite (bind_bind_run _ _ _ _ _ _
               (VideoBufferPath_start_fails fr bufferSize h rb _ (or_intror Hm))).
    step. cbn [Z.eqb]. step. rewrite Hc.
    rewrite (bind_bind_run _ _ _ _ _ _
               (LegacyPath_success fr bufferSize h rb _ hrG srcPtr H1 H2 H3 Hr)).
    step. cbn [Z.eqb Pos.eqb]. step. split; [reflexivity |]. split.
    + intros o. rewrite blit_from_0, D0. reflexivity.
    + eapply extends_trans; [exact X0' |]. ext.
  - step. cbn [Z.eqb]. step. rewrite Hc.
    rewrite (bind_bind_run _ _ _ _ _ _
               (LegacyPath_success fr bufferSize h rb _ hrG srcPtr H1 H2 H3 Hr)).
    step. cbn [Z.eqb Pos.eqb]. step. split; [reflexivity |]. split.
    + intros o. rewrite blit_from_0, D0. reflexivity.
    + eapply extends_trans; [exact X0' |]. ext.
Qed.

(** The v14_2_1 copy of a 4x1 frame into an 8-byte buffer. *)
Lemma legacy_path_copies_frame_witness :
  fst (CopyDeckLinkFrameBytes frame_legacy_only 1 4096 20480 8 s_init) = Val 1 /\
  (forall o,
     dst (snd (CopyDeckLinkFrameBytes frame_legacy_only 1 4096 20480 8 s_init)) o
     = if (0 <=? o) && (o <? Z.min 8 (wrap32 (8 * 1)))
       then load (memory frame_legacy_only) (131072 + o) else dst s_init o) /\
  extends before_fallback s_init
    (snd (CopyDeckLinkFrameBytes frame_legacy_only 1 4096 20480 8 s_init)).
Proof.
  apply (legacy_path_copies_frame frame_legacy_only 1 4096 20480 8 s_init
           4 1 8 0 S_OK 131072);
    try reflexivity; try discriminate; try lia.
  left. reflexivity.
Defined.




(** ** Which calls a run can contain *)

Lemma bind_bind_exc {S A B C} (c : M S A) (k1 : A -> M S B)
    (k2 : B -> M S C) s s1 :
  c s = (Exc, s1) -> bind (bind c k1) k2 s = (Exc, s1).
Proof. intros E. unfold bind. rewrite E. reflexivity. Qed.

Lemma VideoBufferPath_events (P : Event -> Prop) fr bufferSize h rb s :
  P (EvStartAccess bmdBufferAccessRead) ->
  ((exists hr, vb_StartAccess fr bmdBufferAccessRead = Some hr
               /\ SUCCEEDED hr = true) ->
   P EvGetBytes /\ P (EvEndAccess bmdBufferAccessRead)
   /\ forall k, P (EvWrite 0 k)) ->
  extends P s (snd (VideoBufferPath fr bufferSize h rb s)).
Proof.
  intros P1 P2. unfold VideoBufferPath, try_except, foreign. step.
  destruct (vb_StartAccess fr bmdBufferAccessRead) as [hr |]; step; [| ext].
  destruct (SUCCEEDED hr) eqn:S; step; [| ext].
  destruct P2 as (P3 & P4 & P5); [eauto |].
  destruct (vb_GetBytes fr) as [[hr2 srcPtr] |]; step; [| ext].
  destruct (SUCCEEDED hr2 && negb (srcPtr =? nullptr)).
  - match goal with
    | |- context [bind (bind (memcpy fr 0 srcPtr ?n) _) _ ?s1] =>
        destruct (memcpy_run fr 0 srcPtr n s1) as [B [[E _] | [E _]]]
    end.
    + rewrite (bind_bind_run _ _ _ _ _ _ E). step.
      destruct (vb_EndAccess fr bmdBufferAccessRead); step; ext.
    + rewrite (bind_bind_exc _ _ _ _ _ E). step. ext.
  - step. destruct (vb_EndAccess fr bmdBufferAccessRead); step; ext.
Qed.

Lemma LegacyPath_events (P : Event -> Prop) fr bufferSize h rb s :
  P EvLegacyGetBytes -> (forall k, P (EvWrite 0 k)) ->
  extends P s (snd (LegacyPath fr bufferSize h rb s)).
Proof.
  intros P1 P2. unfold LegacyPath, try_except, foreign. step.
  destruct (legacy_GetBytes fr) as [[hr srcPtr] |]; step; [| ext].
  destruct (SUCCEEDED hr && negb (srcPtr =? nullptr)); [| step; ext].
  match goal with |- context [bind (memcpy fr 0 srcPtr ?n) _ ?s1] =>
    destruct (memcpy_run fr 0 srcPtr n s1) as [B [[E _] | [E _]]] end;
    unfold bind; rewrite E; step; ext.
Qed.

Lemma RawOffsetFallback_events (P : Event -> Prop)
    fr fuel unknown bufferSize w h rb s :
  P (EvAddRef unknown) -> P EvReadField280 -> P (EvRelease unknown) ->
  (forall v, P (EvDetector v)) -> (forall off len, P (EvWrite off len)) ->
  extends P s (snd (RawOffsetFallback fr fuel unknown bufferSize w h rb s)).
Proof.
  intros P1 P2 P3 P4 P5. rewrite RawOffsetFallback_run.
  destruct (plausible (field280 fr)); [| cbn [snd]; ext].
  apply extends_trans with (s2 := entered unknown s); [unfold entered; ext |].
  apply bind_extends.
  - eapply extends_mono; [| apply RawCopy_only_writes].
    intros e (off & len & ->). apply P5.
  - intros. apply Verdict_extends; auto.
Qed.

Lemma AfterGeometry_events (P : Event -> Prop)
    fr fuel unknown bufferSize w h rb :
  (forall iid, P (EvQueryInterface iid)) -> (forall p, P (EvRelease p)) ->
  (capable fr IID_IDeckLinkVideoBuffer = true ->
   forall s1, extends P s1 (snd (VideoBufferPath fr bufferSize h rb s1))) ->
  (capable fr IID_IDeckLinkVideoInputFrame_v14_2_1 = true ->
   forall s1, extends P s1 (snd (LegacyPath fr bufferSize h rb s1))) ->
  (forall s1,
     extends P s1
       (snd (RawOffsetFallback fr fuel unknown bufferSize w h rb s1))) ->
  forall s, extends P s (snd (AfterGeometry fr fuel unknown bufferSize w h rb s)).
Proof.
  intros PQ PR PV PL PF s. unfold AfterGeometry, QueryInterface, capable in *.
  destruct (QI fr IID_IDeckLinkVideoBuffer) as [hr videoBuffer].
  destruct (QI fr IID_IDeckLinkVideoInputFrame_v14_2_1)
    as [hrLegacy legacyFrame].
  cbn [fst snd] in *. step.
  match goal with |- extends _ _ (snd (bind _ _ ?st)) =>
    apply extends_trans with (s2 := st); [ext |] end.
  apply bind_extends.
  - destruct (SUCCEEDED hr && negb (videoBuffer =? nullptr));
      [| apply ret_extends].
    apply bind_extends; [apply PV; reflexivity |].
    intros r s1. apply bind_extends; [apply extends_emit; auto |].
    intros. apply ret_extends.
  - intros r1 s1. destruct (r1 =? 1); [apply ret_extends |]. step.
    match goal with |- extends _ _ (snd (bind _ _ ?st)) =>
      apply extends_trans with (s2 := st); [ext |] end.
    apply bind_extends.
    + destruct (SUCCEEDED hrLegacy && negb (legacyFrame =? nullptr));
        [| apply ret_extends].
      apply bind_extends; [apply PL; reflexivity |].
      intros r s2. apply bind_extends; [apply extends_emit; auto |].
      intros. apply ret_extends.
    + intros r2 s2. destruct (r2 =? 1); [apply ret_extends | apply PF].
Qed.

(** Every call either stops at the validation of lines 143-211 with 0 and
    an untouched buffer, or is [AfterGeometry] run on the untouched
    buffer. *)
Lemma Copy_split fr fuel framePtr buffer bufferSize s :
  (fst (CopyDeckLinkFrameBytes fr fuel framePtr buffer bufferSize s) = Val 0 /\
   dst (snd (CopyDeckLinkFrameBytes fr fuel framePtr buffer bufferSize s)) = dst s
   /\ extends validation_event s
        (snd (CopyDeckLinkFrameBytes fr fuel framePtr buffer bufferSize s)))
  \/
  (exists s0 w h rb pf,
      geometry fr = Some (w, h, rb, pf) /\ 0 < bufferSize /\
      dst s0 = dst s /\ extends validation_event s s0 /\
      CopyDeckLinkFrameBytes fr fuel framePtr buffer bufferSize s
      = AfterGeometry fr fuel framePtr bufferSize w h rb s0).
Proof.
  unfold CopyDeckLinkFrameBytes, AfterGeometry, QueryInterface, when.
  destruct ((framePtr =? nullptr) || (buffer =? nullptr) || (bufferSize <=? 0))
    eqn:G; [left; step; repeat split; ext |].
  apply orb_false_iff in G. destruct G as [_ G]. apply Z.leb_gt in G.
  destruct (QI fr IID_IUnknown) as [hrTest testUnk].
  destruct (QI fr IID_IDeckLinkVideoFrame) as [hrVF testVF].
  destruct (QI fr IID_IDeckLinkVideoInputFrame) as [hrVIF testVIF].
  step.
  destruct (FAILED hrTest || (testUnk =? nullptr));
    [left; step; repeat split; ext |].
  step. rewrite when_Release_bind. step. rewrite when_Release_bind. step.
  match goal with |- context [bind (ReadGeometry fr) _ ?st] =>
    rewrite (bind_run _ _ _ _ _ (ReadGeometry_run fr st)) end.
  destruct (geometry fr) as [[[[w h] rb] pf] |].
  - right. eexists. exists w, h, rb, pf.
    split; [reflexivity |]. split; [exact G |].
    split; [| split; [| reflexivity]]; [reflexivity |].
    destruct (negb (testVF =? nullptr)), (negb (testVIF =? nullptr)); ext.
  - left. step. repeat split.
    destruct (negb (testVF =? nullptr)), (negb (testVIF =? nullptr)); ext.
Qed.

Lemma Copy_events (P : Event -> Prop) fr fuel framePtr buffer bufferSize s :
  (forall iid, P (EvQueryInterface iid)) -> (forall p, P (EvRelease p)) ->
  P (EvAddRef framePtr) -> P EvReadField280 ->
  (forall v, P (EvDetector v)) -> (forall off len, P (EvWrite off len)) ->
  (capable fr IID_IDeckLinkVideoBuffer = true ->
   forall h rb s1, extends P s1 (snd (VideoBufferPath fr bufferSize h rb s1))) ->
  (capable fr IID_IDeckLinkVideoInputFrame_v14_2_1 = true ->
   forall h rb s1, extends P s1 (snd (LegacyPath fr bufferSize h rb s1))) ->
  extends P s (snd (CopyDeckLinkFrameBytes fr fuel framePtr buffer bufferSize s)).
Proof.
  intros PQ PR PA PF PD PW PV PL.
  assert (V : forall e, validation_event e -> P e).
  { intros [iid | p | | | | | | | |]; cbn; try contradiction; auto. }
  destruct (Copy_split fr fuel framePtr buffer bufferSize s)
    as [(_ & _ & X) | (s0 & w & h & rb & pf & _ & _ & _ & X & ->)].
  - eapply extends_mono; [exact V | exact X].
  - eapply extends_trans; [eapply extends_mono; [exact V | exact X] |].
    apply AfterGeometry_events; auto.
    intros s1. apply RawOffsetFallback_events; auto.
Qed.

(** No call is made on an interface whose capability query failed: when
    the query for IDeckLinkVideoBuffer fails or stores no pointer, the
    run contains no StartAccess, GetBytes or EndAccess; when the query for
    the v14_2_1 interface does, it contains no call of its GetBytes.
    Lines 221-353. *)
Theorem absent_capability_is_never_called
    fr fuel framePtr buffer bufferSize s iid :
  iid = IID_IDeckLinkVideoBuffer
  \/ iid = IID_IDeckLinkVideoInputFrame_v14_2_1 ->
  capable fr iid = false ->
  extends (fun e => ~ call_on iid e) s
    (snd (CopyDeckLinkFrameBytes fr fuel framePtr buffer bufferSize s)).
Proof.
  intros Hi Hc. apply Copy_events.
  - intros i. destruct Hi as [-> | ->]; cbn; auto.
  - intros p. destruct Hi as [-> | ->]; cbn; auto.
  - destruct Hi as [-> | ->]; cbn; auto.
  - destruct Hi as [-> | ->]; cbn; auto.
  - intros v. destruct Hi as [-> | ->]; cbn; auto.
  - intros off len. destruct Hi as [-> | ->]; cbn; auto.
  - intros Hv h rb s1. destruct Hi as [-> | ->]; [congruence |].
    apply VideoBufferPath_events; cbn; auto.
  - intros Hl h rb s1. destruct Hi as [-> | ->]; [| congruence].
    apply LegacyPath_events; cbn; auto.
Qed.

(** No buffered-access call on [frame_raw_only], which lacks the
    capability. *)
Lemma absent_capability_is_never_called_witness :
  extends (fun e => ~ call_on IID_IDeckLinkVideoBuffer e) s_init
    (snd (CopyDeckLinkFrameBytes frame_raw_only 1 4096 20480 16 s_init)).
Proof.
  apply (absent_capability_is_never_called frame_raw_only 1 4096 20480 16
           s_init IID_IDeckLinkVideoBuffer).
  - left. reflexivity.
  - reflexivity.
Defined.

(** GetBytes and EndAccess are only called inside the bracket: in a call
    whose StartAccess faults or returns a failure status, neither is ever
    called.  Lines 250-285. *)
Theorem no_bracket_call_without_StartAccess
    fr fuel framePtr buffer bufferSize s :
  (forall hr, vb_StartAccess fr bmdBufferAccessRead = Some hr ->
              SUCCEEDED hr = false) ->
  extends outside_bracket s
    (snd (CopyDeckLinkFrameBytes fr fuel framePtr buffer bufferSize s)).
Proof.
  intros H. apply Copy_events; cbn; auto.
  - intros _ h rb s1. apply VideoBufferPath_events; [exact I |].
    intros (hr & E & S). rewrite (H hr E) in S. discriminate.
  - intros _ h rb s1. apply LegacyPath_events; cbn; auto.
Qed.

(** The call on [frame_modern_start_fails], whose StartAccess returns
    E_FAIL. *)
Lemma no_bracket_call_without_StartAccess_witness :
  extends outside_bracket s_init
    (snd (CopyDeckLinkFrameBytes frame_modern_start_fails 1 4096 20480 8
            s_init)).
Proof.
  apply (no_bracket_call_without_StartAccess frame_modern_start_fails 1 4096
           20480 8 s_init).
  intros hr E. injection E as <-. reflexivity.
Defined.


(** ** GetDeckLinkFrameInfo *)

(** GetDeckLinkFrameInfo returns 1 exactly when the handle is not null and
    every accessor whose output pointer is not null returns; otherwise it
    returns 0.  An accessor whose output pointer is null is not called, so
    its fault does not matter; no fault leaves the function; with a null
    handle the caller's memory is left as it is.  Lines 571-594. *)
Theorem GetDeckLinkFrameInfo_status fr framePtr width height rowBytes flags mem :
  (fst (GetDeckLinkFrameInfo fr framePtr width height rowBytes flags mem) = Val 1
   <-> framePtr <> nullptr
       /\ obtainable width (vt_GetWidth fr)
       /\ obtainable height (vt_GetHeight fr)
       /\ obtainable rowBytes (vt_GetRowBytes fr)
       /\ obtainable flags (vt_GetFlags fr)) /\
  (fst (GetDeckLinkFrameInfo fr framePtr width height rowBytes flags mem) = Val 1
   \/ fst (GetDeckLinkFrameInfo fr framePtr width height rowBytes flags mem)
      = Val 0) /\
  (framePtr = nullptr ->
   snd (GetDeckLinkFrameInfo fr framePtr width height rowBytes flags mem) = mem).
Proof.
  unfold GetDeckLinkFrameInfo, obtainable.
  destruct (Z.eqb_spec framePtr nullptr) as [Ef | Nf].
  - cbn [ret fst snd]. repeat split; auto; try discriminate. tauto.
  - unfold try_except, bind, when, foreign, poke, ret, raise.
    destruct (Z.eqb_spec width nullptr), (Z.eqb_spec height nullptr),
      (Z.eqb_spec rowBytes nullptr), (Z.eqb_spec flags nullptr);
      destruct (vt_GetWidth fr), (vt_GetHeight fr), (vt_GetRowBytes fr),
        (vt_GetFlags fr); cbn [negb fst snd];
      (split; [| split; [auto | contradiction]]);
      (split;
       [ intros E; try discriminate E; repeat split; auto;
         right; discriminate
       | intros (_ & [? | ?] & [? | ?] & [? | ?] & [? | ?]);
         congruence ]).
Qed.

(** When the four accessors return and the four output pointers are not
    null and pairwise distinct, GetDeckLinkFrameInfo returns 1, the four
    outputs hold the width, the height, the row stride and the flags, and
    no other cell of the caller's memory changes.  Lines 584-588. *)
Theorem GetDeckLinkFrameInfo_outputs
    fr framePtr width height rowBytes flags mem w h rb fl :
  framePtr <> nullptr ->
  vt_GetWidth fr = Some w -> vt_GetHeight fr = Some h ->
  vt_GetRowBytes fr = Some rb -> vt_GetFlags fr = Some fl ->
  width <> nullptr -> height <> nullptr -> rowBytes <> nullptr ->
  flags <> nullptr ->
  width <> height -> width <> rowBytes -> width <> flags ->
  height <> rowBytes -> height <> flags -> rowBytes <> flags ->
  let r := GetDeckLinkFrameInfo fr framePtr width height rowBytes flags mem in
  fst r = Val 1 /\
  snd r width = w /\ snd r height = h /\ snd r rowBytes = rb /\
  snd r flags = fl /\
  forall a, a <> width -> a <> height -> a <> rowBytes -> a <> flags ->
            snd r a = mem a.
Proof.
  intros Hf Hw Hh Hrb Hfl N1 N2 N3 N4 D1 D2 D3 D4 D5 D6 r. subst r.
  unfold GetDeckLinkFrameInfo.
  destruct (Z.eqb_spec framePtr nullptr); [contradiction |].
  unfold try_except, bind, when, foreign, poke, ret, raise.
  rewrite Hw, Hh, Hrb, Hfl.
  destruct (Z.eqb_spec width nullptr), (Z.eqb_spec height nullptr),
    (Z.eqb_spec rowBytes nullptr), (Z.eqb_spec flags nullptr);
    try contradiction.
  cbn [negb fst snd]. split; [reflexivity |].
  repeat split; try intros a A1 A2 A3 A4;
    repeat match goal with
           | |- context [?x =? ?y] => destruct (Z.eqb_spec x y)
           end; congruence.
Qed.

(** A 1920x1080 frame of 3840 bytes per row whose accessors all return. *)
Lemma GetDeckLinkFrameInfo_outputs_witness :
  let r := GetDeckLinkFrameInfo frame_raw_hd 4096 100 104 108 112
             (fun _ => 0) in
  fst r = Val 1 /\
  snd r 100 = 1920 /\ snd r 104 = 1080 /\ snd r 108 = 3840 /\
  snd r 112 = 0 /\
  forall a, a <> 100 -> a <> 104 -> a <> 108 -> a <> 112 ->
            snd r a = (fun _ : Z => 0) a.
Proof.
  apply (GetDeckLinkFrameInfo_outputs frame_raw_hd 4096 100 104 108 112
           (fun _ => 0) 1920 1080 3840 0);
    try reflexivity; discriminate.
Defined.

(** ** The references the call holds *)

Lemma references_held_app fr p tr :
  references_held fr (p ++ tr)
  = references_held fr p + references_held fr tr.
Proof.
  induction p as [| e p IH]; cbn [app references_held]; [reflexivity |].
  rewrite IH. ring.
Qed.

Lemma references_held_free fr s s' :
  extends reference_free s s' ->
  references_held fr (trace s') = references_held fr (trace s).
Proof.
  intros (p & -> & F). rewrite references_held_app.
  enough (references_held fr p = 0) by lia.
  induction F as [| e p He _ IH]; cbn [references_held]; [reflexivity |].
  rewrite IH. destruct e; cbn in He |- *; try contradiction; reflexivity.
Qed.

Lemma VideoBufferPath_references fr bufferSize h rb s :
  exists r s',
    VideoBufferPath fr bufferSize h rb s = (Val r, s') /\
    references_held fr (trace s') = references_held fr (trace s).
Proof.
  destruct (VideoBufferPath_spec fr bufferSize h rb s) as (r & s' & E & _).
  exists r, s'. split; [exact E |].
  apply references_held_free.
  replace s' with (snd (VideoBufferPath fr bufferSize h rb s))
    by (rewrite E; reflexivity).
  apply VideoBufferPath_events; cbn; auto.
Qed.

Lemma LegacyPath_references fr bufferSize h rb s :
  exists r s',
    LegacyPath fr bufferSize h rb s = (Val r, s') /\
    references_held fr (trace s') = references_held fr (trace s).
Proof.
  destruct (LegacyPath_spec fr bufferSize h rb s) as (r & s' & E & _).
  exists r, s'. split; [exact E |].
  apply references_held_free.
  replace s' with (snd (LegacyPath fr bufferSize h rb s))
    by (rewrite E; reflexivity).
  apply LegacyPath_events; cbn; auto.
Qed.

Lemma RawOffsetFallback_references fr fuel unknown bufferSize w h rb s :
  ends_holding fr (references_held fr (trace s))
    (RawOffsetFallback fr fuel unknown bufferSize w h rb s).
Proof.
  rewrite RawOffsetFallback_run.
  destruct (plausible (field280 fr)).
  - pose proof (RawCopy_only_writes fr fuel (field280 fr) bufferSize
                  (entered unknown s)) as W.
    assert (R : references_held fr
                  (trace (snd (RawCopy fr fuel (field280 fr) bufferSize
                                 (entered unknown s))))
                = references_held fr (trace s) + 1).
    { rewrite (references_held_free fr (entered unknown s)).
      - unfold entered. cbn [trace references_held reference_change]. lia.
      - eapply extends_mono; [| exact W].
        intros e (off & len & ->). exact I. }
    unfold bind.
    destruct (RawCopy fr fuel (field280 fr) bufferSize (entered unknown s))
      as [[bc | |] s1]; cbn [fst snd] in *.
    + rewrite Verdict_run.
      destruct (bc >? Z.quot bufferSize 2);
        [destruct (Detector.LooksLikeCorruptBGRA (dst s1) w h rb) |];
        split; cbn [fst snd trace references_held reference_change];
        intros; try discriminate; lia.
    + split; cbn [fst snd]; intros; try discriminate; lia.
    + split; cbn [fst snd]; intros; discriminate.
  - split; cbn [fst snd trace references_held reference_change];
      intros; try discriminate; lia.
Qed.

Section Contract.

Variable fr : Foreign.

(** The contract of QueryInterface: a query that fails stores no
    pointer. *)
Hypothesis contract : forall iid,
  FAILED (fst (QI fr iid)) = true -> snd (QI fr iid) = nullptr.

Lemma failed_or_succeeded hr : FAILED hr = negb (SUCCEEDED hr).
Proof.
  unfold FAILED, SUCCEEDED.
  destruct (Z.ltb_spec hr 0), (Z.leb_spec 0 hr); try reflexivity; lia.
Qed.

Lemma query_change iid :
  reference_change fr (EvQueryInterface iid)
  = if capable fr iid then 1 else 0.
Proof.
  unfold capable. cbn [reference_change].
  pose proof (contract iid) as C. rewrite failed_or_succeeded in C.
  destruct (SUCCEEDED (fst (QI fr iid))); cbn [negb andb] in *.
  - destruct (snd (QI fr iid) =? nullptr); reflexivity.
  - rewrite C by reflexivity. reflexivity.
Qed.

Lemma AfterGeometry_references fuel unknown bufferSize w h rb s :
  ends_holding fr (references_held fr (trace s))
    (AfterGeometry fr fuel unknown bufferSize w h rb s).
Proof.
  unfold AfterGeometry, QueryInterface.
  pose proof (query_change IID_IDeckLinkVideoBuffer) as C1.
  pose proof (query_change IID_IDeckLinkVideoInputFrame_v14_2_1) as C2.
  unfold capable in C1, C2.
  destruct (QI fr IID_IDeckLinkVideoBuffer) as [hr videoBuffer].
  destruct (QI fr IID_IDeckLinkVideoInputFrame_v14_2_1)
    as [hrLegacy legacyFrame].
  cbn [fst snd] in C1, C2. step.
  set (s1 := mkState (dst s)
               (EvQueryInterface IID_IDeckLinkVideoBuffer :: trace s)).
  assert (A : exists r1 s2,
             bind (if SUCCEEDED hr && negb (videoBuffer =? nullptr)
                   then r <- VideoBufferPath fr bufferSize h rb ;;
                        Release videoBuffer ;; ret r
                   else ret 0)
                  (fun r => ret r) s1 = (Val r1, s2) /\
             references_held fr (trace s2) = references_held fr (trace s)).
  { destruct (SUCCEEDED hr && negb (videoBuffer =? nullptr)).
    - destruct (VideoBufferPath_references fr bufferSize h rb s1)
        as (r & s' & E & R).
      rewrite (bind_bind_run _ _ _ _ _ _ E). step.
      do 2 eexists. split; [reflexivity |].
      cbn [trace references_held]. rewrite R. subst s1.
      cbn [trace references_held]. rewrite C1.
      cbn [reference_change]. lia.
    - step. do 2 eexists. split; [reflexivity |]. subst s1.
      cbn [trace references_held]. rewrite C1. lia. }
  destruct A as (r1 & s2 & E1 & R1).
  unfold bind at 1. unfold bind at 1 in E1.
  destruct ((if SUCCEEDED hr && negb (videoBuffer =? nullptr)
             then r <- VideoBufferPath fr bufferSize h rb ;;
                  Release videoBuffer ;; ret r
             else ret 0) s1) as [[x | |] sx]; try discriminate E1.
  cbn [ret] in E1. injection E1 as -> ->.
  destruct (r1 =? 1).
  { split; cbn [ret fst snd]; intros; try discriminate; exact R1. }
  step.
  set (s3 := mkState (dst s2)
               (EvQueryInterface IID_IDeckLinkVideoInputFrame_v14_2_1
                :: trace s2)).
  assert (B : exists r2 s4,
             bind (if SUCCEEDED hrLegacy && negb (legacyFrame =? nullptr)
                   then r <- LegacyPath fr bufferSize h rb ;;
                        Release legacyFrame ;; ret r
                   else ret 0)
                  (fun r => ret r) s3 = (Val r2, s4) /\
             references_held fr (trace s4) = references_held fr (trace s)).
  { destruct (SUCCEEDED hrLegacy && negb (legacyFrame =? nullptr)).
    - destruct (LegacyPath_references fr bufferSize h rb s3)
        as (r & s' & E & R).
      rewrite (bind_bind_run _ _ _ _ _ _ E). step.
      do 2 eexists. split; [reflexivity |].
      cbn [trace references_held]. rewrite R. subst s3.
      cbn [trace references_held]. rewrite C2.
      cbn [reference_change]. lia.
    - step. do 2 eexists. split; [reflexivity |]. subst s3.
      cbn [trace references_held]. rewrite C2. lia. }
  destruct B as (r2 & s4 & E2 & R2).
  unfold bind at 1. unfold bind at 1 in E2.
  destruct ((if SUCCEEDED hrLegacy && negb (legacyFrame =? nullptr)
             then r <- LegacyPath fr bufferSize h rb ;;
                  Release legacyFrame ;; ret r
             else ret 0) s3) as [[x | |] sx]; try discriminate E2.
  cbn [ret] in E2. injection E2 as -> ->.
  destruct (r2 =? 1).
  { split; cbn [ret fst snd]; intros; try discriminate; exact R2. }
  rewrite <- R2. apply RawOffsetFallback_references.
Qed.

Lemma Copy_references fuel framePtr buffer bufferSize s :
  ends_holding fr (references_held fr (trace s))
    (CopyDeckLinkFrameBytes fr fuel framePtr buffer bufferSize s).
Proof.
  pose proof (AfterGeometry_references fuel framePtr bufferSize) as AG.
  unfold AfterGeometry in AG.
  unfold CopyDeckLinkFrameBytes, QueryInterface, when.
  destruct ((framePtr =? nullptr) || (buffer =? nullptr) || (bufferSize <=? 0)).
  { split; cbn [ret fst snd]; intros; try discriminate; reflexivity. }
  pose proof (query_change IID_IUnknown) as C1. unfold capable in C1.
  assert (C2 : reference_change fr (EvQueryInterface IID_IDeckLinkVideoFrame)
               = if snd (QI fr IID_IDeckLinkVideoFrame) =? nullptr
                 then 0 else 1) by reflexivity.
  assert (C3 : reference_change fr
                 (EvQueryInterface IID_IDeckLinkVideoInputFrame)
               = if snd (QI fr IID_IDeckLinkVideoInputFrame) =? nullptr
                 then 0 else 1) by reflexivity.
  destruct (QI fr IID_IUnknown) as [hrTest testUnk].
  destruct (QI fr IID_IDeckLinkVideoFrame) as [hrVF testVF].
  destruct (QI fr IID_IDeckLinkVideoInputFrame) as [hrVIF testVIF].
  cbn [fst snd] in C1, C2, C3. step.
  rewrite failed_or_succeeded.
  destruct (SUCCEEDED hrTest); cbn [negb andb orb] in *.
  2:{ split; cbn [ret fst snd trace references_held]; intros;
        try discriminate. rewrite C1. lia. }
  destruct (testUnk =? nullptr); cbn [negb] in *.
  { split; cbn [ret fst snd trace references_held]; intros;
      try discriminate. rewrite C1. lia. }
  step. rewrite when_Release_bind. step. rewrite when_Release_bind. step.
  match goal with |- context [bind (ReadGeometry fr) _ ?st] =>
    rewrite (bind_run _ _ _ _ _ (ReadGeometry_run fr st));
    assert (R : references_held fr (trace st) = references_held fr (trace s))
  end.
  { cbn [trace].
    destruct (testVF =? nullptr), (testVIF =? nullptr); cbn [negb];
      cbn [references_held]; rewrite ?C1, ?C2, ?C3;
      cbn [reference_change]; lia. }
  destruct (geometry fr) as [[[[w h] rb] pf] |].
  - rewrite <- R. apply AG.
  - split; cbn [ret fst snd]; intros; try discriminate; exact R.
Qed.

End Contract.

(** When every capability query that fails stores no pointer (the COM
    contract of QueryInterface), a call that returns has released every
    reference it obtained: the queried interfaces of lines 150-186, 223
    and 299 and the AddRef of the fallback.  When a fault leaves the call
    (it can only come out of the fallback, after the AddRef of line 359),
    exactly one reference is still held.  Lines 141-569. *)
Theorem returns_release_every_reference
    fr fuel framePtr buffer bufferSize s :
  (forall iid, FAILED (fst (QI fr iid)) = true -> snd (QI fr iid) = nullptr) ->
  let R := CopyDeckLinkFrameBytes fr fuel framePtr buffer bufferSize s in
  (forall r, fst R = Val r ->
     references_held fr (trace (snd R)) = references_held fr (trace s)) /\
  (fst R = Exc ->
     references_held fr (trace (snd R)) = references_held fr (trace s) + 1).
Proof.
  intros C R. exact (Copy_references fr C fuel framePtr buffer bufferSize s).
Qed.

(** The object that answers only the buffered-access query, called with an
    8-byte buffer. *)
Lemma returns_release_every_reference_witness :
  let R := CopyDeckLinkFrameBytes frame_modern_saturated 1 4096 20480 8
             s_init in
  (forall r, fst R = Val r ->
     references_held frame_modern_saturated (trace (snd R))
     = references_held frame_modern_saturated (trace s_init)) /\
  (fst R = Exc ->
     references_held frame_modern_saturated (trace (snd R))
     = references_held frame_modern_saturated (trace s_init) + 1).
Proof.
  apply (returns_release_every_reference frame_modern_saturated 1 4096
           20480 8 s_init).
  intros []; vm_compute; intros E; try discriminate E; reflexivity.
Defined.

(** ** The verdict of the detector *)

Lemma over_35_percent c :
  717 <= c <= 2048 ->
  PrimFloat.ltb 0.35%float
    (PrimFloat.div (Detector.to_double c)
       (Detector.to_double Detector.samples)) = true.
Proof.
  intros H. destruct c as [| q | q]; try lia.
  do 12 (try (destruct q as [q | q |])); try lia; vm_compute; reflexivity.
Qed.

Lemma alpha_saturated_bounds p w h rb : forall n i,
  0 <= alpha_saturated n p w h rb i <= Z.of_nat n.
Proof.
  induction n as [| n IH]; intros i; cbn [alpha_saturated]; [lia |].
  destruct (Detector.sample_offset w h rb i) as [offset |]; [| lia].
  specialize (IH (i + 1)). destruct (p (offset + 3) =? 255); lia.
Qed.

Lemma sample_step_c3FF p offset i a :
  Detector.c3FF (Detector.sample_step p offset i a)
  = Detector.c3FF a + (if p (offset + 3) =? 255 then 1 else 0).
Proof.
  unfold Detector.sample_step.
  destruct (Detector.UpdateStats (p (offset + 0)) _ _ i),
    (Detector.UpdateStats (p (offset + 1)) _ _ i),
    (Detector.UpdateStats (p (offset + 2)) _ _ i),
    (Detector.UpdateStats (p (offset + 3)) _ _ i).
  cbn [Detector.c3FF]. unfold Detector.bump.
  destruct (p (offset + 3) =? 255); lia.
Qed.

Lemma sample_loop_c3FF p w h rb : forall n i a a',
  Detector.sample_loop n p w h rb i a = Some a' ->
  Detector.c3FF a' = Detector.c3FF a + alpha_saturated n p w h rb i.
Proof.
  induction n as [| n IH]; intros i a a' E;
    cbn [Detector.sample_loop alpha_saturated] in *.
  - injection E as <-. lia.
  - destruct (Detector.sample_offset w h rb i) as [offset |];
      [| discriminate E].
    rewrite (IH _ _ _ E), sample_step_c3FF. lia.
Qed.

(** When the fourth byte is 0xFF in at least 717 of the 2048 sampled
    groups, that is in more than 35 % of them, the detector reports
    corruption, whatever the other bytes and the variances are.
    Lines 79-137 (118, 132, 135). *)
Theorem alpha_saturation_is_flagged p w h rb :
  h <> 0 -> wrap32 (wrap32 (w * 2) - 4) <> 0 ->
  717 <= alpha_saturated (Z.to_nat Detector.samples) p w h rb 0 ->
  Detector.LooksLikeCorruptBGRA p w h rb = Some true.
Proof.
  intros Nh Nd H. unfold Detector.LooksLikeCorruptBGRA.
  destruct (sample_loop_some p w h rb Nh Nd (Z.to_nat Detector.samples) 0
              Detector.acc0) as (a & E).
  rewrite E. f_equal.
  pose proof (sample_loop_c3FF p w h rb _ _ _ _ E) as C.
  pose proof (alpha_saturated_bounds p w h rb (Z.to_nat Detector.samples) 0)
    as B.
  change (Detector.c3FF Detector.acc0) with 0 in C.
  change (Z.of_nat (Z.to_nat Detector.samples)) with 2048 in B.
  unfold Detector.verdict. cbv zeta.
  rewrite (over_35_percent (Detector.c3FF a)) by lia.
  rewrite orb_true_r. reflexivity.
Qed.

(** A buffer whose every byte is 0xFF. *)
Lemma alpha_saturation_is_flagged_witness :
  Detector.LooksLikeCorruptBGRA (fun _ => 255) 4 1 8 = Some true.
Proof.
  apply (alpha_saturation_is_flagged (fun _ => 255) 4 1 8).
  - discriminate.
  - vm_compute. discriminate.
  - vm_compute. discriminate.
Defined.

Lemma UpdateStats_first b :
  0 <= b <= 255 ->
  Detector.UpdateStats b 0%float 0%float 0 = (Detector.to_double b, 0%float).
Proof.
  intros H. destruct b as [| q | q]; try lia.
  - vm_compute. reflexivity.
  - do 8 (try (destruct q as [q | q |])); try lia; vm_compute; reflexivity.
Qed.

Lemma double_byte b :
  0 <= b <= 255 ->
  PrimFloat.sub (Detector.to_double b) (Detector.to_double b) = 0%float /\
  PrimFloat.add (Detector.to_double b) 0%float = Detector.to_double b.
Proof.
  intros H. destruct b as [| q | q]; try lia.
  - vm_compute. auto.
  - do 8 (try (destruct q as [q | q |])); try lia; vm_compute; auto.
Qed.

Lemma zero_over_count i :
  1 <= i <= 2047 ->
  PrimFloat.div 0%float (Detector.to_double (i + 1)) = 0%float.
Proof.
  intros H. destruct i as [| q | q]; try lia.
  do 11 (try (destruct q as [q | q |])); try lia; vm_compute; reflexivity.
Qed.

(** Welford's update with a sample equal to the mean: the mean and the
    sum of squares stay as they are. *)
Lemma UpdateStats_same b i :
  0 <= b <= 255 -> 1 <= i <= 2047 ->
  Detector.UpdateStats b (Detector.to_double b) 0%float i
  = (Detector.to_double b, 0%float).
Proof.
  intros Hb Hi. unfold Detector.UpdateStats. cbv zeta.
  destruct (double_byte b Hb) as [E1 E2].
  rewrite E1, (zero_over_count i Hi), E2, E1. reflexivity.
Qed.

Section Uniform.

Variables (p : Z -> Z) (w h rb b0 b1 b2 b3 : Z).
Hypothesis Nh : h <> 0.
Hypothesis Nd : wrap32 (wrap32 (w * 2) - 4) <> 0.
Hypothesis B0 : 0 <= b0 <= 255.
Hypothesis B1 : 0 <= b1 <= 255.
Hypothesis B2 : 0 <= b2 <= 255.
Hypothesis B3 : 0 <= b3 <= 255.
Hypothesis U : uniform_samples p w h rb b0 b1 b2 b3.

Lemma sample_step_first offset :
  Detector.sample_offset w h rb 0 = Some offset ->
  Detector.sample_step p offset 0 Detector.acc0 = uniform_acc b0 b1 b2 b3 1.
Proof.
  intros E.
  destruct (U 0 offset) as (E0 & E1 & E2 & E3);
    [unfold Detector.samples; lia | exact E |].
  unfold Detector.sample_step, Detector.acc0, uniform_acc.
  cbn [Detector.m0 Detector.m1 Detector.m2 Detector.m3 Detector.s0
       Detector.s1 Detector.s2 Detector.s3 Detector.c0FF Detector.c1FF
       Detector.c2FF Detector.c3FF].
  rewrite E0, E1, E2, E3.
  rewrite !UpdateStats_first by auto. unfold Detector.bump.
  destruct (_ =? 255), (_ =? 255), (_ =? 255), (_ =? 255); reflexivity.
Qed.

Lemma sample_step_uniform offset i :
  1 <= i <= 2047 ->
  Detector.sample_offset w h rb i = Some offset ->
  Detector.sample_step p offset i (uniform_acc b0 b1 b2 b3 i)
  = uniform_acc b0 b1 b2 b3 (i + 1).
Proof.
  intros Hi E.
  destruct (U i offset) as (E0 & E1 & E2 & E3);
    [unfold Detector.samples; lia | exact E |].
  unfold Detector.sample_step, uniform_acc.
  cbn [Detector.m0 Detector.m1 Detector.m2 Detector.m3 Detector.s0
       Detector.s1 Detector.s2 Detector.s3 Detector.c0FF Detector.c1FF
       Detector.c2FF Detector.c3FF].
  rewrite E0, E1, E2, E3.
  rewrite !UpdateStats_same by auto. unfold Detector.bump.
  destruct (_ =? 255), (_ =? 255), (_ =? 255), (_ =? 255); reflexivity.
Qed.

Lemma sample_loop_uniform : forall n i,
  1 <= i -> i + Z.of_nat n <= 2048 ->
  Detector.sample_loop n p w h rb i (uniform_acc b0 b1 b2 b3 i)
  = Some (uniform_acc b0 b1 b2 b3 (i + Z.of_nat n)).
Proof.
  induction n as [| n IH]; intros i H1 H2; cbn [Detector.sample_loop].
  - rewrite Z.add_0_r. reflexivity.
  - destruct (Detector.sample_offset w h rb i) as [offset |] eqn:E.
    + rewrite (sample_step_uniform offset i) by (auto; lia).
      rewrite IH by lia. do 2 f_equal. lia.
    + apply sample_offset_none in E. tauto.
Qed.

Lemma LooksLikeCorruptBGRA_uniform :
  Detector.LooksLikeCorruptBGRA p w h rb = Some (b3 =? 255).
Proof.
  unfold Detector.LooksLikeCorruptBGRA.
  change (Z.to_nat Detector.samples) with (S (Z.to_nat 2047)).
  cbn [Detector.sample_loop].
  destruct (Detector.sample_offset w h rb 0) as [offset |] eqn:E.
  - rewrite (sample_step_first offset E).
    change (0 + 1) with 1.
    rewrite sample_loop_uniform by lia.
    change (1 + Z.of_nat (Z.to_nat 2047)) with 2048. f_equal.
    unfold uniform_acc.
    destruct (b0 =? 255), (b1 =? 255), (b2 =? 255), (b3 =? 255);
      vm_compute; reflexivity.
  - apply sample_offset_none in E. tauto.
Qed.

End Uniform.

(** When every sampled 4-byte group holds the same four bytes (a frame of
    one colour), the running means are these bytes and the sums of squares
    stay 0, and the detector reports corruption exactly when the fourth
    byte is 0xFF: a uniform frame is never rejected for its variance, and
    always rejected when its fourth byte is saturated.  Lines 68-75 and
    79-137. *)
Theorem uniform_frame_verdict p w h rb b0 b1 b2 b3 :
  h <> 0 -> wrap32 (wrap32 (w * 2) - 4) <> 0 ->
  0 <= b0 <= 255 -> 0 <= b1 <= 255 -> 0 <= b2 <= 255 -> 0 <= b3 <= 255 ->
  uniform_samples p w h rb b0 b1 b2 b3 ->
  Detector.LooksLikeCorruptBGRA p w h rb = Some (b3 =? 255).
Proof. apply LooksLikeCorruptBGRA_uniform. Qed.

(** A buffer whose every byte is 16. *)
Lemma uniform_frame_verdict_witness :
  Detector.LooksLikeCorruptBGRA (fun _ => 16) 4 1 8 = Some (16 =? 255).
Proof.
  apply (uniform_frame_verdict (fun _ => 16) 4 1 8 16 16 16 16).
  - discriminate.
  - vm_compute. discriminate.
  - lia.
  - lia.
  - lia.
  - lia.
  - intros i offset _ _. repeat split.
Defined.
